(** * m3u8-detector: the stream-discovery and relay server

    A shallow embedding of the Express server of the repository
    ([src/server.js], in its static-fetch variants, and the
    headless-browser variant that replaces the static fetch by a
    Puppeteer render) and the proofs of its allowlist guard, manifest
    extractor, candidate selector, [/scrape] handler and [/proxy] relay.

    Conventions.
    - A JavaScript string is a sequence of UTF-16 code units; the model
      keeps the code units below 256 and writes them as [ascii], so a
      string is a Rocq [string].
    - A thrown exception is the [Thrown] case of [Result]; its payload is
      the [message] of the error object.
    - A query parameter is a string or [undefined]. What the handlers
      write to the console is left out, and so are the logger and the
      static files that Express serves before the routes.
    - What Node, Express, axios, cheerio and Puppeteer do is not code of
      this repository: the URL parser and the HTML parser are fields of
      the class [Platform], the outcome of every network or browser
      operation is an answer of the environment to an effect of [io]. *)

From Stdlib Require Import String Ascii ZArith Bool Lia.
From stdpp Require Import base option list gmap strings pretty.

Local Open Scope string_scope.
Local Open Scope Z_scope.

(** ** JavaScript values used by the server *)

(** The result of evaluating code that may throw. *)
Inductive Result (A : Type) : Type :=
| Ok (a : A)
| Thrown (message : string).
Arguments Ok {A} a.
Arguments Thrown {A} message.

Module JS.

(** [!s] is true of the empty string, and of [undefined]. *)
Definition truthy (s : string) : bool := negb (String.eqb s "").

Definition falsy (v : option string) : bool :=
  match v with
  | None => true
  | Some s => negb (truthy s)
  end.

(** [a || b] on a string-or-undefined [a] and a string [b]. *)
Definition or_else (a : option string) (b : string) : string :=
  match a with
  | Some s => if truthy s then s else b
  | None => b
  end.

(** [String.prototype.endsWith]: the code units of [s] from
    [len - searchLength] on are those of [d]; false when that start
    would be negative. *)
Definition endsWith (s d : string) : bool :=
  let len := String.length s in
  let searchLength := String.length d in
  if (len <? searchLength)%nat then false
  else String.eqb (substring (len - searchLength) searchLength s) d.

(** [String.prototype.startsWith]. *)
Definition startsWith (s d : string) : bool := String.prefix d s.

(** [String.prototype.includes]: [t] occurs in [s] at some index. *)
Fixpoint includes (s t : string) : bool :=
  if String.prefix t s then true
  else match s with
       | EmptyString => false
       | String _ s' => includes s' t
       end.

(** Simple case folding of one code unit: only A-Z change. *)
Definition lower (c : ascii) : ascii :=
  let n := nat_of_ascii c in
  if ((65 <=? n) && (n <=? 90))%nat then ascii_of_nat (n + 32) else c.

Fixpoint toLowerCase (s : string) : string :=
  match s with
  | EmptyString => EmptyString
  | String c s' => String (lower c) (toLowerCase s')
  end.

(** White space and line terminators among the code units below 256:
    TAB, LF, VT, FF, CR, SP and NBSP. *)
Definition is_space (c : ascii) : bool :=
  let n := nat_of_ascii c in
  (((9 <=? n) && (n <=? 13)) || (n =? 32) || (n =? 160))%nat.

Fixpoint trimStart (s : string) : string :=
  match s with
  | EmptyString => EmptyString
  | String c s' => if is_space c then trimStart s' else s
  end.

(** Drops the white space at the end: a character is kept when it is
    not white space or something is kept after it. *)
Fixpoint trimEnd (s : string) : string :=
  match s with
  | EmptyString => EmptyString
  | String c s' =>
      match trimEnd s' with
      | EmptyString => if is_space c then EmptyString else String c EmptyString
      | r => String c r
      end
  end.

(** [String.prototype.trim]. *)
Definition trim (s : string) : string := trimEnd (trimStart s).

(** [s.split(',')]: the pieces between the commas, empty pieces kept;
    never the empty array. *)
Fixpoint split_comma (s : string) : list string :=
  match s with
  | EmptyString => [EmptyString]
  | String c s' =>
      if Ascii.eqb c "," then EmptyString :: split_comma s'
      else match split_comma s' with
           | piece :: rest => String c piece :: rest
           | [] => [String c EmptyString]
           end
  end.

(** A [Set] of strings: the elements in insertion order. [add] of an
    element that is present changes nothing. *)
Definition StringSet := list string.

Definition has (x : string) (s : StringSet) : bool :=
  existsb (String.eqb x) s.

Definition add (x : string) (s : StringSet) : StringSet :=
  if has x s then s else (s ++ [x])%list.

(** [Array.from(set)]. *)
Definition Array_from (s : StringSet) : list string := s.

End JS.

(** ** The manifest URL pattern

    The regular expression of the script pass and of the raw-text pass,
    with the flags [g] and [i]: [https?://C+?\.m3u8C*], in one capture
    group, where [C] is the class of the code units other than white
    space, the two quote characters and the backslash. It is modelled as
    the matcher it denotes: the backtracking search of the pattern at one
    index, and [exec] with the [lastIndex] of a global expression. *)
Module ManifestPattern.

(** The class [C]. *)
Definition url_char (c : ascii) : bool :=
  negb (JS.is_space c
        || Ascii.eqb c "034" || Ascii.eqb c "'" || Ascii.eqb c "\").

(** Matches the literal [pat] (written in lower case) at the start of
    [s], ignoring case, and returns what follows it. *)
Fixpoint eat_ci (pat s : string) : option string :=
  match pat with
  | EmptyString => Some s
  | String p pat' =>
      match s with
      | EmptyString => None
      | String c s' =>
          if Ascii.eqb (JS.lower c) p then eat_ci pat' s' else None
      end
  end.

(** The greedy [C*] at the end of the pattern: the longest run. *)
Fixpoint run_length (s : string) : nat :=
  match s with
  | EmptyString => 0%nat
  | String c s' => if url_char c then S (run_length s') else 0%nat
  end.

(** [C+?\.m3u8C*] at the start of [s]: the lazy
    quantifier takes one character, then as few more as lets [.m3u8]
    match. The result is the number of code units matched. *)
Fixpoint lazy_body (s : string) : option nat :=
  match s with
  | EmptyString => None
  | String c s' =>
      if url_char c then
        match eat_ci ".m3u8" s' with
        | Some rest => Some (1 + 5 + run_length rest)%nat
        | None => option_map S (lazy_body s')
        end
      else None
  end.

(** After [http]: [s?] is greedy, it takes an [s] first and gives it
    back when the rest fails. *)
Definition after_http (r : string) : option nat :=
  let rest_of k :=
    match eat_ci "://" k with
    | Some body => option_map (Nat.add 3) (lazy_body body)
    | None => None
    end in
  let with_s :=
    match r with
    | String c k => if Ascii.eqb (JS.lower c) "s"
                    then option_map S (rest_of k) else None
    | EmptyString => None
    end in
  match with_s with
  | Some n => Some n
  | None => rest_of r
  end.

(** The whole pattern at the start of [s]: the length of the match. *)
Definition match_at (s : string) : option nat :=
  match eat_ci "http" s with
  | Some r => option_map (Nat.add 4) (after_http r)
  | None => None
  end.

(** [s] without its first [n] code units. *)
Fixpoint skip (n : nat) (s : string) : string :=
  match n, s with
  | S k, String _ s' => skip k s'
  | _, _ => s
  end.

(** The first index from [i] on at which the pattern matches, [s] being
    the text from index [i]; with the length of the match. *)
Fixpoint search (s : string) (i : nat) : option (nat * nat) :=
  match match_at s with
  | Some n => Some (i, n)
  | None =>
      match s with
      | EmptyString => None
      | String _ s' => search s' (S i)
      end
  end.

(** The state of a regular expression object. *)
Record RegExp := { lastIndex : nat }.

(** A regular expression literal evaluates to a new object. *)
Definition fresh : RegExp := {| lastIndex := 0 |}.

(** [re.exec(text)] for the global flag: the search starts at
    [lastIndex]; a match moves [lastIndex] to its end and returns the
    capture [m[1]], a failure resets [lastIndex] and returns [null]. *)
Definition exec (re : RegExp) (text : string) : option string * RegExp :=
  if (String.length text <? lastIndex re)%nat
  then (None, {| lastIndex := 0 |})
  else
    match search (skip (lastIndex re) text) (lastIndex re) with
    | Some (i, n) => (Some (substring i n text), {| lastIndex := (i + n)%nat |})
    | None => (None, {| lastIndex := 0 |})
    end.

(** [while ((m = re.exec(text)) !== null) body(m[1])], at most [fuel]
    calls of [exec]; [None] when the fuel is used up before [exec]
    returns [null]. *)
Fixpoint while_exec {St : Type} (fuel : nat) (re : RegExp) (text : string)
    (body : string -> St -> St) (st : St) : option (St * RegExp) :=
  match fuel with
  | O => None
  | S fuel' =>
      match exec re text with
      | (None, re') => Some (st, re')
      | (Some m, re') => while_exec fuel' re' text body (body m st)
      end
  end.

(** The loop on a new expression. Every match is at least one code unit
    long, so [exec] returns [null] within [length text + 1] calls
    ([while_exec_enough]) and the second case is never taken. *)
Definition scan {St : Type} (text : string) (body : string -> St -> St)
    (st : St) : St :=
  match while_exec (S (String.length text)) fresh text body st with
  | Some (st', _) => st'
  | None => st
  end.

End ManifestPattern.

(** ** The document that [cheerio.load] returns *)
Module Dom.

#[warnings="-register-all"]
Inductive Node : Type :=
| Element (name : string) (attribs : list (string * string))
          (children : list Node)
| Text (data : string).

Definition Document := list Node.

(** The elements of a subtree in document order. *)
Fixpoint elements_of (n : Node) : list Node :=
  match n with
  | Element _ _ children => n :: flat_map elements_of children
  | Text _ => []
  end.

Definition all_elements (d : Document) : list Node :=
  flat_map elements_of d.

(** The text of a subtree, as [.text()] concatenates it. *)
Fixpoint text_of (n : Node) : string :=
  match n with
  | Element _ _ children => String.concat "" (List.map text_of children)
  | Text data => data
  end.

Definition tag (n : Node) : string :=
  match n with
  | Element name _ _ => name
  | Text _ => ""
  end.

Fixpoint assoc (k : string) (l : list (string * string)) : option string :=
  match l with
  | [] => None
  | (k', v) :: l' => if String.eqb k k' then Some v else assoc k l'
  end.

(** [$(el).attr(name)]: [undefined] without the attribute. *)
Definition attr (name : string) (n : Node) : option string :=
  match n with
  | Element _ attribs _ => assoc name attribs
  | Text _ => None
  end.

(** [$(el).html()] of a [script] element, whose content is raw text. *)
Definition html (n : Node) : string :=
  match n with
  | Element _ _ children =>
      String.concat ""
        (List.map (fun c => match c with Text data => data | _ => "" end)
                  children)
  | Text _ => ""
  end.

(** The selector [tag[name*=needle]]. *)
Definition attr_contains (t name needle : string) (n : Node) : bool :=
  String.eqb (tag n) t &&
  match attr name n with
  | Some v => JS.includes v needle
  | None => false
  end.

(** The selector [tag[name=value]]. *)
Definition attr_equals (t name value : string) (n : Node) : bool :=
  String.eqb (tag n) t &&
  match attr name n with
  | Some v => String.eqb v value
  | None => false
  end.

(** [$(selector)]: the matching elements in document order. *)
Definition select (matches : Node -> bool) (d : Document) : list Node :=
  List.filter matches (all_elements d).

End Dom.

(** ** What the server takes from Node and cheerio *)

(** The fields of a [URL] object that the server reads. *)
Record URL := {
  href : string;
  origin : string;
  hostname : string
}.

(** [URL_new input base] is [new URL(input, base)], [None] when the
    constructor throws its [TypeError]; [cheerio_load] is
    [cheerio.load]. *)
Class Platform := {
  URL_new : string -> option string -> option URL;
  cheerio_load : string -> Dom.Document
}.

(** The message of the [TypeError] of [new URL]. *)
Definition invalid_url : string := "Invalid URL".

(** [pat], written in lower case, matches somewhere in [s] when case is
    ignored. *)
Fixpoint occurs_ci (pat s : string) : bool :=
  match ManifestPattern.eat_ci pat s with
  | Some _ => true
  | None =>
      match s with
      | EmptyString => false
      | String _ s' => occurs_ci pat s'
      end
  end.

(** [/master|index|playlist/i.test(u)]. *)
Definition priority_test (u : string) : bool :=
  occurs_ci "master" u || occurs_ci "index" u || occurs_ci "playlist" u.

(** [urls.find(u => /master|index|playlist/i.test(u)) || urls[0] || null];
    [None] is [null]. *)
Definition select_best (urls : list string) : option string :=
  let first_or_null :=
    match urls with
    | u :: _ => if JS.truthy u then Some u else None
    | [] => None
    end in
  match List.find priority_test urls with
  | Some u => if JS.truthy u then Some u else first_or_null
  | None => first_or_null
  end.

(** The allowlist of the variants that read it from the environment:
    [process.env.ALLOWLIST?.split(',').map(d => d.trim()) || []]. *)
Definition ALLOWLIST_of_env (v : option string) : list string :=
  match v with
  | Some s => List.map JS.trim (JS.split_comma s)
  | None => []
  end.

(** The allowlist of the first variant, an array literal with its only
    entry commented out. *)
Definition ALLOWLIST_literal : list string := [].

(** The page metadata; [None] is [null]. *)
Record Meta := {
  title : option string;
  ogTitle : option string;
  ogVideo : option string;
  ogDescription : option string
}.

Section Extraction.

Context `{Platform}.
Variable ALLOWLIST : list string.

(** [isAllowed(urlStr)]. *)
Definition isAllowed (urlStr : string) : bool :=
  match URL_new urlStr None with
  | Some u =>
      if (List.length ALLOWLIST =? 0)%nat then true
      else existsb (fun d => JS.endsWith (hostname u) d) ALLOWLIST
  | None => false
  end.

(** The selector of the DOM pass,
    [source[src*=.m3u8], a[href*=.m3u8], video[src*=.m3u8]]. *)
Definition media_selector (n : Dom.Node) : bool :=
  Dom.attr_contains "source" "src" ".m3u8" n
  || Dom.attr_contains "a" "href" ".m3u8" n
  || Dom.attr_contains "video" "src" ".m3u8" n.

Definition script_selector (n : Dom.Node) : bool :=
  String.eqb (Dom.tag n) "script".

(** [$(el).attr('src') || $(el).attr('href')]. *)
Definition src_or_href (el : Dom.Node) : option string :=
  match Dom.attr "src" el with
  | Some s => if JS.truthy s then Some s else Dom.attr "href" el
  | None => Dom.attr "href" el
  end.

(** The DOM pass: [.each] over the selected elements. [new URL] is
    called outside any [try], its exception leaves the extractor. *)
Fixpoint each_media (els : list Dom.Node) (baseUrl : string)
    (candidates : JS.StringSet) : Result JS.StringSet :=
  match els with
  | [] => Ok candidates
  | el :: rest =>
      match src_or_href el with
      | Some src =>
          if JS.truthy src then
            match URL_new src (Some baseUrl) with
            | Some u => each_media rest baseUrl (JS.add (href u) candidates)
            | None => Thrown invalid_url
            end
          else each_media rest baseUrl candidates
      | None => each_media rest baseUrl candidates
      end
  end.

(** The body of the two [while] loops:
    [try { candidates.add(new URL(m[1], baseUrl).href) } catch {}]. *)
Definition try_add (baseUrl m : string) (candidates : JS.StringSet)
    : JS.StringSet :=
  match URL_new m (Some baseUrl) with
  | Some u => JS.add (href u) candidates
  | None => candidates
  end.

(** The script pass: each [script] element is scanned with an
    expression of its own. *)
Definition each_script (els : list Dom.Node) (baseUrl : string)
    (candidates : JS.StringSet) : JS.StringSet :=
  fold_left
    (fun c el => ManifestPattern.scan (JS.or_else (Some (Dom.html el)) "")
                   (try_add baseUrl) c)
    els candidates.

(** [extractM3U8(html, baseUrl)]. *)
Definition extractM3U8 (html baseUrl : string) : Result (list string) :=
  let doc := cheerio_load html in
  match each_media (Dom.select media_selector doc) baseUrl [] with
  | Thrown e => Thrown e
  | Ok c1 =>
      let c2 := each_script (Dom.select script_selector doc) baseUrl c1 in
      let c3 := ManifestPattern.scan html (try_add baseUrl) c2 in
      Ok (JS.Array_from c3)
  end.

(** The value of one field of the metadata: [v || null]. *)
Definition or_null (v : option string) : option string :=
  match v with
  | Some s => if JS.truthy s then Some s else None
  | None => None
  end.

(** [$('meta[property=p]').attr('content')]: of the first match. *)
Definition meta_content (doc : Dom.Document) (p : string) : option string :=
  match Dom.select (Dom.attr_equals "meta" "property" p) doc with
  | el :: _ => Dom.attr "content" el
  | [] => None
  end.

(** [extractMeta(html)]. *)
Definition extractMeta (html : string) : Meta :=
  let doc := cheerio_load html in
  {| title :=
       or_null (Some (JS.trim
         match Dom.select (fun n => String.eqb (Dom.tag n) "title") doc with
         | t :: _ => Dom.text_of t
         | [] => ""
         end));
     ogTitle := or_null (meta_content doc "og:title");
     ogVideo := or_null (meta_content doc "og:video");
     ogDescription := or_null (meta_content doc "og:description") |}.

End Extraction.

(** ** Express requests and responses *)

#[warnings="-register-all"]
Inductive json : Type :=
| JNull
| JBool (b : bool)
| JString (s : string)
| JArray (items : list json)
| JObject (fields : list (string * json)).

(** The value of a key of an object, [None] for [undefined]. *)
Definition field (k : string) (j : json) : option json :=
  match j with
  | JObject fields =>
      (fix go (l : list (string * json)) : option json :=
         match l with
         | [] => None
         | (k', v) :: l' => if String.eqb k k' then Some v else go l'
         end) fields
  | _ => None
  end.

(** A string or [null]. *)
Definition JString_or_null (v : option string) : json :=
  match v with
  | Some s => JString s
  | None => JNull
  end.

Record Request := {
  method : string;
  query : gmap string string;
  req_headers : gmap string string
}.

(** What has been sent: nothing yet, text ([res.send]), JSON
    ([res.json]) or the bytes of a stream piped into the response. *)
Inductive Body : Type :=
| NoBody
| SendText (s : string)
| SendJson (j : json)
| Piped (data : string).

Record Res := {
  statusCode : Z;
  headers : gmap string string;
  body : Body
}.

(** The response object that Express hands to the first middleware. *)
Definition new_res : Res :=
  {| statusCode := 200; headers := ∅; body := NoBody |}.

Definition status (code : Z) (res : Res) : Res :=
  {| statusCode := code; headers := headers res; body := body res |}.

(** Header names are case-insensitive: they are stored in lower case. *)
Definition setHeader (name value : string) (res : Res) : Res :=
  {| statusCode := statusCode res;
     headers := <[JS.toLowerCase name := value]> (headers res);
     body := body res |}.

Definition send (s : string) (res : Res) : Res :=
  {| statusCode := statusCode res; headers := headers res; body := SendText s |}.

Definition send_json (j : json) (res : Res) : Res :=
  {| statusCode := statusCode res; headers := headers res; body := SendJson j |}.

Definition pipe (data : string) (res : Res) : Res :=
  {| statusCode := statusCode res; headers := headers res; body := Piped data |}.

(** [res.sendStatus(200)]. *)
Definition sendStatus_200 (res : Res) : Res := send "OK" (status 200 res).

(** ** axios *)

Record AxiosConfig := {
  responseType : string;
  userAgent : string;
  range : option string;
  referer : option string;
  maxRedirects : Z;
  timeout : Z;
  validateStatus : Z -> bool
}.

(** What the transport ends with, redirects followed: a fault (network
    error, timeout, too many redirects) or the final response. *)
Inductive AxiosOutcome : Type :=
| NetworkFault (message : string)
| Responded (resp_status : Z) (resp_headers : gmap string string)
            (data : string) (responseUrl : option string).

Record AxiosResponse := {
  upstream_status : Z;
  upstream_headers : gmap string string;
  upstream_data : string;
  upstream_responseUrl : option string
}.

(** The default of axios: the statuses 2xx resolve the promise. *)
Definition default_validateStatus (s : Z) : bool := (200 <=? s) && (s <? 300).

(** [await axios.get(url, config)]: a response whose status
    [validateStatus] refuses rejects the promise like a fault does. *)
Definition settle (config : AxiosConfig) (out : AxiosOutcome)
    : Result AxiosResponse :=
  match out with
  | NetworkFault message => Thrown message
  | Responded s h d u =>
      if validateStatus config s
      then Ok {| upstream_status := s; upstream_headers := h;
                 upstream_data := d; upstream_responseUrl := u |}
      else Thrown ("Request failed with status code " ++ pretty s)
  end.

(** What the upstream connection does once the head of the response has
    arrived: the body arrives whole, or the connection fails after a part
    of it. *)
Inductive Transfer : Type :=
| Complete (bytes : string)
| Broken (received : string) (message : string).

(** The bytes that reach the stream. *)
Definition bytes_of (t : Transfer) : string :=
  match t with
  | Complete bytes => bytes
  | Broken received _ => received
  end.

(** What a request with [responseType: 'stream'] ends with when the head
    of a response arrives: axios resolves the promise with the head and
    the stream, before the body is read. An error that the stream emits
    later comes after the [await] has returned. *)
Definition stream_response (s : Z) (h : gmap string string) (t : Transfer)
    (u : option string) : AxiosOutcome :=
  Responded s h (bytes_of t) u.

Definition chrome_user_agent : string :=
  "Mozilla/5.0 (Windows NT 10.0; Win64; x64) AppleWebKit/537.36 " ++
  "(KHTML, like Gecko) Chrome/126.0.0.0 Safari/537.36".

(** ** Effects

    The operations whose result the environment decides. An operation
    that can reject answers with a [Result]; the awaits during which the
    page runs also answer with the URLs of the requests that the page
    made while the handler was suspended, in order. *)
Inductive Eff : Type -> Type :=
| AxiosGet (url : string) (config : AxiosConfig) : Eff AxiosOutcome
| PuppeteerLaunch : Eff (Result unit)
| NewPage : Eff (Result unit)
| PageGoto (url : string) : Eff (list string * Result unit)
| PageWaitForTimeout (ms : Z) : Eff (list string * Result unit)
| PageUrl : Eff string
| PageContent : Eff (list string * Result string)
| BrowserClose : Eff unit.

Inductive io (A : Type) : Type :=
| Ret (a : A)
| Vis {X : Type} (e : Eff X) (k : X -> io A).
Arguments Ret {A} a.
Arguments Vis {A X} e k.

Fixpoint io_bind {A B : Type} (f : A -> io B) (m : io A) : io B :=
  match m with
  | Ret a => f a
  | Vis e k => Vis e (fun x => io_bind f (k x))
  end.

#[export] Instance io_mbind : MBind io := @io_bind.
#[export] Instance io_mret : MRet io := @Ret.

Definition await {X : Type} (e : Eff X) : io X := Vis e Ret.

(** One effect performed, with the answer it got. *)
Definition Event : Type := { X : Type & (Eff X * X)%type }.

Definition event {X : Type} (e : Eff X) (x : X) : Event := existT X (e, x).

(** The environment answers an effect knowing what happened before. *)
Definition Env : Type := list Event -> forall X : Type, Eff X -> X.

(** Runs a handler in an environment: its result and the effects it
    performed, [hist] being those performed before it. *)
Fixpoint run {A : Type} (env : Env) (hist : list Event) (p : io A)
    : A * list Event :=
  match p with
  | Ret a => (a, hist)
  | Vis e k =>
      let x := env hist _ e in
      run env (hist ++ [event e x])%list (k x)
  end.

Definition is_upstream_get (ev : Event) : bool :=
  match fst (projT2 ev) with
  | AxiosGet _ _ => true
  | _ => false
  end.

(** The number of requests sent upstream. *)
Definition upstream_gets (tr : list Event) : nat :=
  List.length (List.filter is_upstream_get tr).

(** The URLs of the requests that the page made, in order. *)
Definition requests_of (ev : Event) : list string :=
  let '(existT _ (e, x)) := ev in
  match e in Eff X return X -> list string with
  | PageGoto _ => fun x => fst x
  | PageWaitForTimeout _ => fun x => fst x
  | PageContent => fun x => fst x
  | _ => fun _ => []
  end x.

Definition requests_seen (tr : list Event) : list string :=
  flat_map requests_of tr.

(** ** The server *)

(** The CORS middleware that runs before every route. *)
Definition cors (req : Request) (res : Res) (next : Res -> io Res) : io Res :=
  let res := setHeader "Access-Control-Allow-Origin" "*" res in
  let res := setHeader "Access-Control-Allow-Headers"
               "Origin, X-Requested-With, Content-Type, Accept, Range" res in
  let res := setHeader "Access-Control-Allow-Methods" "GET, OPTIONS" res in
  if String.eqb (method req) "OPTIONS" then Ret (sendStatus_200 res)
  else next res.

(** The response headers that the relay copies from upstream. *)
Definition passthrough : list string :=
  [ "content-type"; "content-length"; "accept-ranges"; "content-range";
    "etag"; "last-modified"; "cache-control"; "access-control-allow-origin" ].

(** The [validateStatus] of the relay: [s => s >= 200 && s < 400]. *)
Definition proxy_validateStatus (s : Z) : bool := (200 <=? s) && (s <? 400).

(** The request callback of the rendered variant:
    [if (url.includes('.m3u8')) m3u8Urls.add(url)]. *)
Definition on_request (m3u8Urls : JS.StringSet) (url : string) : JS.StringSet :=
  if JS.includes url ".m3u8" then JS.add url m3u8Urls else m3u8Urls.

(** The body of a successful [/scrape]. *)
Definition scrape_ok (page : string) (meta : Meta) (m3u8Urls : list string)
    (best : option string) : json :=
  JObject
    [ ("ok", JBool true);
      ("page", JString page);
      ("meta", JObject
         [ ("title", JString_or_null (title meta));
           ("ogTitle", JString_or_null (ogTitle meta));
           ("ogVideo", JString_or_null (ogVideo meta));
           ("ogDescription", JString_or_null (ogDescription meta)) ]);
      ("m3u8Urls", JArray (List.map JString m3u8Urls));
      ("best", JString_or_null best) ].

Section Handlers.

Context `{Platform}.
Variable ALLOWLIST : list string.

(** The configuration of the upstream request of [/proxy]. *)
Definition proxy_config (req : Request) (u : URL) : AxiosConfig :=
  {| responseType := "stream";
     userAgent := chrome_user_agent;
     range := or_null (req_headers req !! "range");
     referer := Some (origin u);
     maxRedirects := 5;
     timeout := 20000;
     validateStatus := proxy_validateStatus |}.

(** [passthrough.forEach(h => { const v = upstream.headers[h];
    if (v) res.setHeader(h, v); })]. *)
Definition mirror (upstream : AxiosResponse) (res : Res) : Res :=
  fold_left
    (fun r h =>
       match upstream_headers upstream !! h with
       | Some v => if JS.truthy v then setHeader h v r else r
       | None => r
       end)
    passthrough res.

(** The [catch] of [/proxy]. *)
Definition proxy_catch (message : string) (res : Res) : Res :=
  send ("Upstream error: " ++ JS.or_else (Some message) "Bad gateway")
       (status 502 res).

(** [app.get('/proxy', ...)]. *)
Definition proxy (req : Request) (res : Res) : io Res :=
  let src := query req !! "src" in
  if JS.falsy src then Ret (send "Missing ?src=" (status 400 res))
  else
    let src := default "" src in
    if negb (isAllowed ALLOWLIST src)
    then Ret (send "Domain not allowed" (status 403 res))
    else
      match URL_new src None with
      | None => Ret (proxy_catch invalid_url res)
      | Some u =>
          let config := proxy_config req u in
          out ← await (AxiosGet src config);
          match settle config out with
          | Thrown message => Ret (proxy_catch message res)
          | Ok upstream =>
              let res := mirror upstream res in
              let res := setHeader "Access-Control-Allow-Origin" "*" res in
              Ret (pipe (upstream_data upstream) res)
          end
      end.

(** The configuration of the page request of the static [/scrape]. *)
Definition scrape_config : AxiosConfig :=
  {| responseType := "text";
     userAgent := chrome_user_agent;
     range := None;
     referer := None;
     maxRedirects := 5;
     timeout := 15000;
     validateStatus := default_validateStatus |}.

(** [app.get('/scrape', ...)] of [src/server.js], both variants. *)
Definition scrape_static (req : Request) (res : Res) : io Res :=
  let target := query req !! "url" in
  if JS.falsy target
  then Ret (send_json (JObject [("error", JString "Missing ?url=")])
                      (status 400 res))
  else
    let target := default "" target in
    if negb (isAllowed ALLOWLIST target)
    then Ret (send_json (JObject [("error", JString "Domain not allowed")])
                        (status 403 res))
    else
      let catch message :=
        send_json
          (JObject [ ("ok", JBool false);
                     ("error", JString (JS.or_else (Some message) "Fetch failed")) ])
          (status 500 res) in
      out ← await (AxiosGet target scrape_config);
      match settle scrape_config out with
      | Thrown message => Ret (catch message)
      | Ok response =>
          let html := upstream_data response in
          let baseUrl := JS.or_else (upstream_responseUrl response) target in
          match extractM3U8 html baseUrl with
          | Thrown message => Ret (catch message)
          | Ok m3u8Urls =>
              let meta := extractMeta html in
              let best := select_best m3u8Urls in
              Ret (send_json (scrape_ok baseUrl meta m3u8Urls best) res)
          end
      end.

(** The [try] block of the rendered [/scrape] once the browser runs;
    [Thrown] when one of its awaits rejects. *)
Definition render (target : string) (res : Res) : io (Result Res) :=
  page ← await NewPage;
  match page with
  | Thrown message => Ret (Thrown message)
  | Ok _ =>
      let m3u8Urls : JS.StringSet := [] in
      '(seen, went) ← await (PageGoto target);
      let m3u8Urls := fold_left on_request seen m3u8Urls in
      match went with
      | Thrown message => Ret (Thrown message)
      | Ok _ =>
          '(seen, waited) ← await (PageWaitForTimeout 5000);
          let m3u8Urls := fold_left on_request seen m3u8Urls in
          match waited with
          | Thrown message => Ret (Thrown message)
          | Ok _ =>
              finalUrl ← await PageUrl;
              '(seen, content) ← await PageContent;
              let m3u8Urls := fold_left on_request seen m3u8Urls in
              match content with
              | Thrown message => Ret (Thrown message)
              | Ok html =>
                  let meta := extractMeta html in
                  let urls := JS.Array_from m3u8Urls in
                  let best := select_best urls in
                  Ret (Ok (send_json (scrape_ok finalUrl meta urls best) res))
              end
          end
      end
  end.

(** [app.get('/scrape', ...)] of the rendered variant: [try], [catch]
    and the [finally] that closes the browser if it was launched. *)
Definition scrape_rendered (req : Request) (res : Res) : io Res :=
  let target := query req !! "url" in
  if JS.falsy target
  then Ret (send_json (JObject [ ("ok", JBool false);
                                 ("error", JString "Missing ?url=") ])
                      (status 400 res))
  else
    let target := default "" target in
    if negb (isAllowed ALLOWLIST target)
    then Ret (send_json (JObject [ ("ok", JBool false);
                                   ("error", JString "Domain not allowed") ])
                        (status 403 res))
    else
      let catch message :=
        send_json
          (JObject [ ("ok", JBool false);
                     ("error", JString (JS.or_else (Some message) "Puppeteer failed")) ])
          (status 500 res) in
      browser ← await PuppeteerLaunch;
      match browser with
      | Thrown message => Ret (catch message)
      | Ok _ =>
          r ← render target res;
          _ ← await BrowserClose;
          Ret (match r with
               | Ok sent => sent
               | Thrown message => catch message
               end)
      end.

(** A route behind the middleware, on the response object of a new
    request. *)
Definition serve (route : Request -> Res -> io Res) (req : Request) : io Res :=
  cors req new_res (route req).

End Handlers.

(** ** A small platform and environment

    An instance of [Platform] and environments of [run] for evaluating
    the server on concrete requests. [Sample.URL_new] is Node's parser
    restricted to what it accepts: [http] and [https] URLs whose host is
    made of letters and dots and whose path and query need no
    normalisation, and path-absolute references against such a base.
    [Sample.cheerio_load] knows the documents of the pages named here. *)
Module Sample.

Definition is_letter (c : ascii) : bool :=
  let n := nat_of_ascii (JS.lower c) in ((97 <=? n) && (n <=? 122))%nat.

Definition is_digit (c : ascii) : bool :=
  let n := nat_of_ascii c in ((48 <=? n) && (n <=? 57))%nat.

Definition host_char (c : ascii) : bool := is_letter c || Ascii.eqb c ".".

Definition path_char (c : ascii) : bool :=
  is_letter c || is_digit c
  || existsb (Ascii.eqb c) (list_ascii_of_string "/._~?=&-").

Fixpoint forallb_string (p : ascii -> bool) (s : string) : bool :=
  match s with
  | EmptyString => true
  | String c s' => p c && forallb_string p s'
  end.

(** The longest prefix of host characters, and what follows it. *)
Fixpoint span_host (s : string) : string * string :=
  match s with
  | EmptyString => (EmptyString, EmptyString)
  | String c s' =>
      if host_char c
      then let '(h, t) := span_host s' in (String c h, t)
      else (EmptyString, s)
  end.

Definition valid_host (h : string) : bool :=
  negb (String.eqb h "")
  && negb (JS.startsWith h ".") && negb (JS.endsWith h ".")
  && negb (JS.includes h "..").

Definition valid_tail (t : string) : bool :=
  forallb_string path_char t && negb (JS.includes t "/.")
  && (String.eqb t "" || JS.startsWith t "/" || JS.startsWith t "?").

Definition absolute (scheme rest : string) : option URL :=
  let '(h, t) := span_host rest in
  if valid_host h && valid_tail t then
    let host := JS.toLowerCase h in
    let path := if JS.startsWith t "/" then t else "/" ++ t in
    Some {| href := scheme ++ "://" ++ host ++ path;
            origin := scheme ++ "://" ++ host;
            hostname := host |}
  else None.

Definition parse_absolute (input : string) : option URL :=
  match ManifestPattern.eat_ci "https://" input with
  | Some rest => absolute "https" rest
  | None =>
      match ManifestPattern.eat_ci "http://" input with
      | Some rest => absolute "http" rest
      | None => None
      end
  end.

Definition URL_new (input : string) (base : option string) : option URL :=
  match base with
  | None => parse_absolute input
  | Some b =>
      match parse_absolute b with
      | None => None
      | Some bu =>
          match parse_absolute input with
          | Some u => Some u
          | None =>
              if JS.startsWith input "/" && negb (JS.startsWith input "//")
                 && valid_tail input
              then Some {| href := origin bu ++ input;
                           origin := origin bu;
                           hostname := hostname bu |}
              else None
          end
      end
  end.

(** A link whose address has an unclosed IPv6 bracket. *)
Definition page_bad_link : string := "<a href='http://[x/a.m3u8'>clip</a>".

(** The same address in a script. *)
Definition page_bad_script : string :=
  "<script>var u = 'http://[x/a.m3u8';</script>".

(** A player element that names its manifest. *)
Definition page_video : string :=
  "<video src='https://cdn.test/v/master.m3u8'></video>".

(** A script that names a manifest, and a relative link to another. *)
Definition page_script : string :=
  "<script>var u = 'https://cdn.test/x/master.m3u8?t=1';</script>" ++
  "<a href='/a.m3u8'>a</a>".

Definition document (head body : list Dom.Node) : Dom.Document :=
  [ Dom.Element "html" [] [ Dom.Element "head" [] head;
                            Dom.Element "body" [] body ] ].

Definition cheerio_load (html : string) : Dom.Document :=
  if String.eqb html page_bad_link then
    document [] [ Dom.Element "a" [("href", "http://[x/a.m3u8")]
                              [Dom.Text "clip"] ]
  else if String.eqb html page_bad_script then
  document [ Dom.Element "script" []
               [Dom.Text "var u = 'http://[x/a.m3u8';"] ] []
else if String.eqb html page_video then
    document [] [ Dom.Element "video"
                    [("src", "https://cdn.test/v/master.m3u8")] [] ]
  else if String.eqb html page_script then
    document
      [ Dom.Element "script" []
          [Dom.Text "var u = 'https://cdn.test/x/master.m3u8?t=1';"] ]
      [ Dom.Element "a" [("href", "/a.m3u8")] [Dom.Text "a"] ]
  else document [] [].

#[export] Instance platform : Platform :=
  Build_Platform URL_new cheerio_load.

(** An environment that does not look at the history: the upstream
    answers [upstream] to every request; the browser starts, the page
    makes the requests [seen] while it loads, ends at [finalUrl] and
    has the content [html]. *)
Definition env (upstream : AxiosOutcome) (seen : list string)
    (finalUrl html : string) : Env :=
  fun _ X e =>
    match e in Eff X return X with
    | AxiosGet _ _ => upstream
    | PuppeteerLaunch => Ok tt
    | NewPage => Ok tt
    | PageGoto _ => (seen, Ok tt)
    | PageWaitForTimeout _ => ([], Ok tt)
    | PageUrl => finalUrl
    | PageContent => ([], Ok html)
    | BrowserClose => tt
    end.

Definition get (param value : string) (hdrs : list (string * string))
    : Request :=
  {| method := "GET";
     query := {[ param := value ]};
     req_headers := list_to_map hdrs |}.

(** A [GET] without query parameters. *)
Definition get_bare : Request :=
  {| method := "GET"; query := ∅; req_headers := ∅ |}.

End Sample.

(** ** The vocabulary of the statements *)

(** [u] has an occurrence of [tok] up to case: [tok] is written in lower
    case, as the three tokens of the selector are. *)
Definition mentions (u tok : string) : Prop :=
  exists pre mid post, u = pre ++ mid ++ post /\ JS.toLowerCase mid = tok.

Definition priority_tokens : list string := ["master"; "index"; "playlist"].

(** The response object after the middleware. *)
Definition cors_res : Res :=
  setHeader "Access-Control-Allow-Methods" "GET, OPTIONS"
    (setHeader "Access-Control-Allow-Headers"
       "Origin, X-Requested-With, Content-Type, Accept, Range"
       (setHeader "Access-Control-Allow-Origin" "*" new_res)).

(** The selection of a response agrees with its candidates: a body with a
    [best] has the array [m3u8Urls], and a [best] that is not [null] is in
    it; only a body that is not [ok] has no [best]. *)
Definition consistent (res : Res) : Prop :=
  match body res with
  | SendJson j =>
      match field "best" j with
      | Some (JString u) =>
          exists l, field "m3u8Urls" j = Some (JArray (List.map JString l))
                    /\ u ∈ l
      | Some JNull =>
          exists l, field "m3u8Urls" j = Some (JArray (List.map JString l))
      | Some _ => False
      | None => field "ok" j <> Some (JBool true)
      end
  | _ => True
  end.

(** The message of the rejection that an event answered with, if any. *)
Definition rejection_of (ev : Event) : option string :=
  let '(existT _ (e, x)) := ev in
  let of_result {A : Type} (r : Result A) : option string :=
    match r with
    | Thrown message => Some message
    | Ok _ => None
    end in
  match e in Eff X return X -> option string with
  | AxiosGet _ config => fun x => of_result (settle config x)
  | PuppeteerLaunch => fun x => of_result x
  | NewPage => fun x => of_result x
  | PageGoto _ => fun x => of_result (snd x)
  | PageWaitForTimeout _ => fun x => of_result (snd x)
  | PageContent => fun x => of_result (snd x)
  | _ => fun _ => None
  end x.

(** The value of [ok] in a JSON body. *)
Definition ok_of (res : Res) : option json :=
  match body res with
  | SendJson j => field "ok" j
  | _ => None
  end.

(** The three headers of the middleware are on the response. *)
Definition has_cors (res : Res) : Prop :=
  headers res !! "access-control-allow-origin" = Some "*"
  /\ headers res !! "access-control-allow-headers"
     = Some "Origin, X-Requested-With, Content-Type, Accept, Range"
  /\ headers res !! "access-control-allow-methods" = Some "GET, OPTIONS".

(** The answer of the [catch] of the relay to a fault with this message:
    502 and the text [Upstream error: ] followed by the message, or by
    [Bad gateway] when the message is empty. *)
Definition bad_gateway (res : Res) (message : string) : Prop :=
  let text :=
    "Upstream error: " ++
    (if decide (message = "") then "Bad gateway" else message) in
  statusCode res = 502
  /\ body res = SendText text
  /\ JS.startsWith text "Upstream error:" = true
  /\ JS.includes text message = true.

(** The text that tells the caller what went wrong: the body of
    [res.send], or the [error] of a JSON body. *)
Definition message_of (res : Res) : option string :=
  match body res with
  | SendText s => Some s
  | SendJson j =>
      match field "error" j with
      | Some (JString s) => Some s
      | _ => None
      end
  | _ => None
  end.

(** All the captures of the manifest pattern in a text, in order: what
    the loop of the extractor visits. *)
Definition matches (text : string) : list string :=
  ManifestPattern.scan text (fun m l => (l ++ [m])%list) [].

Fixpoint all_chars (p : ascii -> bool) (s : string) : bool :=
  match s with
  | EmptyString => true
  | String c s' => p c && all_chars p s'
  end.

(** [post] does not go on with a character of the class of the pattern. *)
Definition stops (post : string) : Prop :=
  match post with
  | EmptyString => True
  | String c _ => ManifestPattern.url_char c = false
  end.

Definition is_launch_ok (ev : Event) : bool :=
  let '(existT _ (e, x)) := ev in
  match e in Eff X return X -> bool with
  | PuppeteerLaunch => fun x => match x with Ok _ => true | Thrown _ => false end
  | _ => fun _ => false
  end x.

Definition is_close (ev : Event) : bool :=
  match fst (projT2 ev) with
  | BrowserClose => true
  | _ => false
  end.

(** The number of commas of a configuration value. *)
Fixpoint count_commas (s : string) : nat :=
  match s with
  | EmptyString => 0%nat
  | String c s' => if Ascii.eqb c "," then S (count_commas s') else count_commas s'
  end.

(** The addresses that the page was sent to. *)
Definition goto_of (ev : Event) : list string :=
  match fst (projT2 ev) with
  | PageGoto url => [url]
  | _ => []
  end.

(** * Proofs *)

(** ** Strings *)

Lemma app_String (c : ascii) (a b : string) :
  String c a ++ b = String c (a ++ b).
Proof. reflexivity. Qed.

Lemma string_length_app (a b : string) :
  String.length (a ++ b) = (String.length a + String.length b)%nat.
Proof. induction a as [|c a IH]; simpl; [reflexivity | now rewrite IH]. Qed.

Lemma substring_all (s : string) : substring 0 (String.length s) s = s.
Proof. induction s as [|c s IH]; simpl; [reflexivity | now rewrite IH]. Qed.

Lemma substring_split (s : string) (n : nat) :
  (n <= String.length s)%nat ->
  s = substring 0 n s ++ substring n (String.length s - n) s.
Proof.
  revert n. induction s as [|c s IH]; intros [|n] Hn; simpl in *.
  - reflexivity.
  - lia.
  - now rewrite substring_all.
  - rewrite app_String, <- IH by lia. reflexivity.
Qed.

Lemma substring_app_r (p d : string) :
  substring (String.length p) (String.length d) (p ++ d) = d.
Proof. induction p as [|c p IH]; simpl; [apply substring_all | exact IH]. Qed.

(** [endsWith] is the suffix relation. *)
Lemma endsWith_spec (s d : string) :
  JS.endsWith s d = true <-> exists p, s = p ++ d.
Proof.
  unfold JS.endsWith. split.
  - destruct (Nat.ltb_spec (String.length s) (String.length d)) as [|Hle];
      [discriminate|].
    intros Heq. apply String.eqb_eq in Heq.
    exists (substring 0 (String.length s - String.length d) s).
    pose proof (substring_split s (String.length s - String.length d)) as Hs.
    replace (String.length s - (String.length s - String.length d))%nat
      with (String.length d) in Hs by lia.
    rewrite Heq in Hs. apply Hs. lia.
  - intros [p ->]. rewrite string_length_app.
    destruct (Nat.ltb_spec (String.length p + String.length d)
                           (String.length d)) as [|_]; [lia|].
    replace (String.length p + String.length d - String.length d)%nat
      with (String.length p) by lia.
    rewrite substring_app_r. apply String.eqb_refl.
Qed.

Lemma endsWith_empty (s : string) : JS.endsWith s "" = true.
Proof.
  apply endsWith_spec. exists s.
  induction s as [|c s IH]; [reflexivity|]. rewrite app_String. now f_equal.
Qed.

Lemma split_comma_not_nil (s : string) : JS.split_comma s <> [].
Proof.
  induction s as [|c s IH]; simpl; [discriminate|].
  destruct (Ascii.eqb c ","); [discriminate|].
  destruct (JS.split_comma s); discriminate.
Qed.

(** A comma at the end of the value leaves an empty last piece. *)
Lemma split_comma_trailing (p : string) :
  JS.split_comma (p ++ ",") = (JS.split_comma p ++ [""])%list.
Proof.
  induction p as [|c p IH]; simpl; [reflexivity|].
  destruct (Ascii.eqb c ","); rewrite IH; [reflexivity|].
  pose proof (split_comma_not_nil p).
  destruct (JS.split_comma p); [contradiction | reflexivity].
Qed.

Lemma truthy_true (s : string) : JS.truthy s = true <-> s <> "".
Proof.
  unfold JS.truthy. rewrite negb_true_iff. split.
  - intros E ->. discriminate.
  - intros N. destruct s; [contradiction | reflexivity].
Qed.

(** ** Sets *)

Lemma has_true (x : string) (s : JS.StringSet) : JS.has x s = true <-> x ∈ s.
Proof.
  unfold JS.has. rewrite existsb_exists. split.
  - intros (y & Hy & E). apply String.eqb_eq in E. subst.
    now apply list_elem_of_In.
  - intros Hx. exists x. split; [now apply list_elem_of_In | apply String.eqb_refl].
Qed.

Lemma elem_of_add (x y : string) (s : JS.StringSet) :
  y ∈ JS.add x s <-> y ∈ s \/ y = x.
Proof.
  unfold JS.add. destruct (JS.has x s) eqn:E.
  - apply has_true in E. split; [auto | intros [ ? | -> ]; auto].
  - rewrite elem_of_app, list_elem_of_singleton. tauto.
Qed.

Lemma NoDup_add (x : string) (s : JS.StringSet) : NoDup s -> NoDup (JS.add x s).
Proof.
  intros Hs. unfold JS.add. destruct (JS.has x s) eqn:E; [exact Hs|].
  apply NoDup_app. split; [exact Hs|]. split.
  - intros y Hy Hx. apply list_elem_of_singleton in Hx. subst.
    apply has_true in Hy. congruence.
  - apply NoDup_singleton.
Qed.

(** What was in the set stays at its place: [add] only appends. *)
Lemma add_prefix (x : string) (s : JS.StringSet) : s `prefix_of` JS.add x s.
Proof.
  unfold JS.add. destruct (JS.has x s); [reflexivity | now apply prefix_app_r].
Qed.

(** ** The pattern matcher and its loop *)

Import ManifestPattern.

Lemma eat_ci_length (pat s r : string) :
  eat_ci pat s = Some r ->
  String.length s = (String.length pat + String.length r)%nat.
Proof.
  revert s. induction pat as [|p pat IH]; intros s; simpl.
  - now intros [= ->].
  - destruct s as [|c s]; [discriminate|].
    destruct (Ascii.eqb (JS.lower c) p); [|discriminate].
    intros E. apply IH in E. simpl. lia.
Qed.

Lemma run_length_le (s : string) : (run_length s <= String.length s)%nat.
Proof.
  induction s as [|c s IH]; simpl; [lia|]. destruct (url_char c); lia.
Qed.

Lemma lazy_body_bounds (s : string) (n : nat) :
  lazy_body s = Some n -> (1 <= n <= String.length s)%nat.
Proof.
  revert n. induction s as [|c s IH]; intros n; cbn [lazy_body];
    [discriminate|].
  destruct (url_char c); [|discriminate].
  destruct (eat_ci ".m3u8" s) as [rest|] eqn:E.
  - intros [= <-]. apply eat_ci_length in E. simpl in E.
    pose proof (run_length_le rest). simpl. lia.
  - destruct (lazy_body s) as [k|]; [|discriminate].
    intros [= <-]. specialize (IH k eq_refl). simpl. lia.
Qed.

Lemma after_http_bounds (r : string) (n : nat) :
  after_http r = Some n -> (1 <= n <= String.length r)%nat.
Proof.
  unfold after_http.
  assert (Hrest : forall k m,
    match eat_ci "://" k with
    | Some body => option_map (Nat.add 3) (lazy_body body)
    | None => None
    end = Some m -> (1 <= m <= String.length k)%nat).
  { intros k m. destruct (eat_ci "://" k) as [b|] eqn:E; [|discriminate].
    destruct (lazy_body b) as [j|] eqn:L; [|discriminate].
    intros [= <-]. apply eat_ci_length in E. apply lazy_body_bounds in L.
    simpl in E. lia. }
  destruct r as [|c k].
  - intros E. apply Hrest in E. exact E.
  - destruct (Ascii.eqb (JS.lower c) "s").
    + match goal with
      | |- context [eat_ci "://" k] =>
          destruct (match eat_ci "://" k with
                    | Some body => option_map (Nat.add 3) (lazy_body body)
                    | None => None
                    end) as [j|] eqn:E
      end.
      * intros [= <-]. apply Hrest in E. simpl. lia.
      * intros E'. apply Hrest in E'. exact E'.
    + intros E. apply Hrest in E. exact E.
Qed.

(** A match is never empty and lies inside the text. *)
Lemma match_at_bounds (s : string) (n : nat) :
  match_at s = Some n -> (1 <= n <= String.length s)%nat.
Proof.
  unfold match_at. destruct (eat_ci "http" s) as [r|] eqn:E; [|discriminate].
  destruct (after_http r) as [k|] eqn:A; [|discriminate].
  intros [= <-]. apply eat_ci_length in E. apply after_http_bounds in A.
  simpl in E. lia.
Qed.

Lemma search_bounds (s : string) (i j n : nat) :
  search s i = Some (j, n) ->
  (i <= j /\ 1 <= n /\ j + n <= i + String.length s)%nat.
Proof.
  revert i. induction s as [|c s IH]; intros i; simpl.
  - destruct (match_at "") as [k|] eqn:M; [|discriminate].
    apply match_at_bounds in M. simpl in M. lia.
  - destruct (match_at (String c s)) as [k|] eqn:M.
    + intros [= <- <-]. apply match_at_bounds in M. simpl in M. lia.
    + intros E. apply IH in E. lia.
Qed.

Lemma skip_length (n : nat) (s : string) :
  String.length (skip n s) = (String.length s - n)%nat.
Proof.
  revert s. induction n as [|n IH]; intros [|c s]; simpl; auto.
Qed.

(** A successful [exec] moves [lastIndex] forward, inside the text. *)
Lemma exec_some (re re' : RegExp) (text m : string) :
  exec re text = (Some m, re') ->
  (lastIndex re < lastIndex re' <= String.length text)%nat.
Proof.
  unfold exec.
  destruct (Nat.ltb_spec (String.length text) (lastIndex re)); [discriminate|].
  destruct (search _ _) as [[i n]|] eqn:E; [|discriminate].
  intros [= _ <-]. apply search_bounds in E. rewrite skip_length in E.
  simpl. lia.
Qed.

(** A failing [exec] resets [lastIndex]. *)
Lemma exec_none (re re' : RegExp) (text : string) :
  exec re text = (None, re') -> re' = fresh.
Proof.
  unfold exec.
  destruct (Nat.ltb_spec (String.length text) (lastIndex re)).
  - now intros [= <-].
  - destruct (search _ _) as [[i n]|]; [discriminate | now intros [= <-]].
Qed.

(** The loop ends within the fuel it is given by [scan], with the
    expression back at [lastIndex = 0]; and what holds of the state
    before the loop and is kept by its body holds after it. *)
Lemma while_exec_enough {St : Type} (P : St -> Prop) (body : string -> St -> St)
    (text : string) (fuel : nat) (re : RegExp) (st : St) :
  (String.length text - lastIndex re < fuel)%nat ->
  (forall m s, P s -> P (body m s)) ->
  P st ->
  exists st', while_exec fuel re text body st = Some (st', fresh) /\ P st'.
Proof.
  intros Hfuel Hbody. revert re st Hfuel.
  induction fuel as [|fuel IH]; intros re st Hfuel Hst; [lia|].
  simpl. destruct (exec re text) as [[m|] re'] eqn:E.
  - apply exec_some in E. apply IH; [lia | now apply Hbody].
  - apply exec_none in E. subst. now exists st.
Qed.

Lemma scan_invariant {St : Type} (P : St -> Prop) (body : string -> St -> St)
    (text : string) (st : St) :
  (forall m s, P s -> P (body m s)) ->
  P st -> P (scan text body st).
Proof.
  intros Hbody Hst. unfold scan.
  destruct (while_exec_enough P body text (S (String.length text)) fresh st)
    as (st' & -> & Hst'); simpl; auto; lia.
Qed.

(** [scan] is the loop run to its end. *)
Lemma scan_completes {St : Type} (body : string -> St -> St)
    (text : string) (st : St) :
  while_exec (S (String.length text)) fresh text body st
  = Some (scan text body st, fresh).
Proof.
  unfold scan.
  destruct (while_exec_enough (fun _ => True) body text
              (S (String.length text)) fresh st)
    as (st' & -> & _); simpl; auto; lia.
Qed.

(** ** The allowlist guard *)

Section Guard.

Context `{Platform}.

Lemma isAllowed_unparseable (allowlist : list string) (urlStr : string) :
  URL_new urlStr None = None -> isAllowed allowlist urlStr = false.
Proof. unfold isAllowed. now intros ->. Qed.

Lemma isAllowed_open (urlStr : string) :
  is_Some (URL_new urlStr None) -> isAllowed [] urlStr = true.
Proof. unfold isAllowed. now intros [u ->]. Qed.

Lemma isAllowed_suffix (allowlist : list string) (urlStr : string) (u : URL) :
  allowlist <> [] ->
  URL_new urlStr None = Some u ->
  isAllowed allowlist urlStr = true
  <-> exists d, d ∈ allowlist /\ exists p, hostname u = p ++ d.
Proof.
  intros Hne Hu. unfold isAllowed. rewrite Hu.
  destruct allowlist as [|d0 rest]; [contradiction|].
  cbn [List.length Nat.eqb]. rewrite existsb_exists. split.
  - intros (d & Hd & E). exists d. split; [now apply list_elem_of_In|].
    now apply endsWith_spec.
  - intros (d & Hd & E). exists d. split; [now apply list_elem_of_In|].
    now apply endsWith_spec.
Qed.

(** C1. The guard denies every string that [new URL] does not parse;
    with an empty allowlist it allows every string that parses; with a
    non-empty one it allows a URL exactly when its hostname has one of
    the configured strings as a suffix. With the allowlist
    [example.com], whose two test URLs have the hostnames that Node
    gives them, [https://sub.example.com/x] is allowed and
    [https://example.com.evil.com/x] is not. *)
Theorem isAllowed_spec :
  hostname <$> URL_new "https://sub.example.com/x" None
    = Some "sub.example.com" ->
  hostname <$> URL_new "https://example.com.evil.com/x" None
    = Some "example.com.evil.com" ->
  (forall allowlist urlStr,
      URL_new urlStr None = None -> isAllowed allowlist urlStr = false)
  /\ (forall urlStr,
      is_Some (URL_new urlStr None) -> isAllowed [] urlStr = true)
  /\ (forall allowlist urlStr u,
      allowlist <> [] ->
      URL_new urlStr None = Some u ->
      isAllowed allowlist urlStr = true
      <-> exists d, d ∈ allowlist /\ exists p, hostname u = p ++ d)
  /\ isAllowed ["example.com"] "https://sub.example.com/x" = true
  /\ isAllowed ["example.com"] "https://example.com.evil.com/x" = false.
Proof.
  intros Hsub Hevil.
  split; [exact isAllowed_unparseable|].
  split; [exact isAllowed_open|].
  split; [exact isAllowed_suffix|].
  unfold isAllowed. split.
  - destruct (URL_new "https://sub.example.com/x" None) as [u|];
      [|discriminate].
    injection Hsub as ->. reflexivity.
  - destruct (URL_new "https://example.com.evil.com/x" None) as [u|];
      [|discriminate].
    injection Hevil as ->. reflexivity.
Qed.

Lemma empty_suffix_allows (allowlist : list string) (urlStr : string) :
  "" ∈ allowlist ->
  is_Some (URL_new urlStr None) ->
  isAllowed allowlist urlStr = true.
Proof.
  intros Hin [u Hu]. unfold isAllowed. rewrite Hu.
  destruct (List.length allowlist =? 0)%nat; [reflexivity|].
  apply existsb_exists. exists "".
  split; [now apply list_elem_of_In | apply endsWith_empty].
Qed.

Lemma trailing_comma_empty_suffix (v : string) :
  JS.endsWith v "," = true -> "" ∈ ALLOWLIST_of_env (Some v).
Proof.
  intros E. apply endsWith_spec in E as [p ->].
  unfold ALLOWLIST_of_env. rewrite split_comma_trailing, List.map_app.
  apply elem_of_app. right. simpl. apply list_elem_of_here.
Qed.

(** The first variant is always in open mode. *)
Lemma literal_allowlist_open (urlStr : string) :
  is_Some (URL_new urlStr None) -> isAllowed ALLOWLIST_literal urlStr = true.
Proof. apply isAllowed_open. Qed.

(** C10. An allowlist that contains the empty string allows every URL
    that parses, whatever its hostname; a configuration value that ends
    with a comma gives such an allowlist, and so opens the guard. *)
Theorem empty_suffix_opens_guard :
  (forall allowlist urlStr,
      "" ∈ allowlist ->
      is_Some (URL_new urlStr None) ->
      isAllowed allowlist urlStr = true)
  /\ (forall v urlStr,
      JS.endsWith v "," = true ->
      is_Some (URL_new urlStr None) ->
      "" ∈ ALLOWLIST_of_env (Some v)
      /\ isAllowed (ALLOWLIST_of_env (Some v)) urlStr = true).
Proof.
  split; [exact empty_suffix_allows|].
  intros v urlStr Hv Hu. split; [now apply trailing_comma_empty_suffix|].
  apply empty_suffix_allows; [now apply trailing_comma_empty_suffix | exact Hu].
Qed.

End Guard.

Lemma isAllowed_spec_witness :
  isAllowed (H := Sample.platform) ["example.com"]
    "https://sub.example.com/x" = true
  /\ isAllowed (H := Sample.platform) ["example.com"]
       "https://example.com.evil.com/x" = false
  /\ isAllowed (H := Sample.platform) ["example.com"] "http://[x/a.m3u8" = false.
Proof.
  destruct (@isAllowed_spec Sample.platform eq_refl eq_refl)
    as (Hbad & _ & _ & Hsub & Hevil).
  split; [exact Hsub|]. split; [exact Hevil|].
  apply Hbad. reflexivity.
Defined.

Lemma empty_suffix_opens_guard_witness :
  "" ∈ ALLOWLIST_of_env (Some "example.com,")
  /\ isAllowed (H := Sample.platform) (ALLOWLIST_of_env (Some "example.com,"))
       "https://other.test/x" = true.
Proof.
  destruct (@empty_suffix_opens_guard Sample.platform) as [_ Hcomma].
  apply Hcomma; [reflexivity | eexists; reflexivity].
Defined.

(** ** The candidate selector *)

Lemma eat_ci_spec (pat s r : string) :
  eat_ci pat s = Some r <-> exists mid, s = mid ++ r /\ JS.toLowerCase mid = pat.
Proof.
  revert s. induction pat as [|p pat IH]; intros s; simpl.
  - split.
    + intros [= ->]. now exists "".
    + intros (mid & -> & E). destruct mid; [reflexivity | discriminate].
  - destruct s as [|c s].
    + split; [discriminate|].
      intros (mid & E & L). destruct mid; [discriminate|].
      rewrite app_String in E. discriminate.
    + destruct (Ascii.eqb_spec (JS.lower c) p) as [<-|Hne].
      * rewrite IH. split.
        -- intros (mid & -> & <-). now exists (String c mid).
        -- intros (mid & E & L). destruct mid as [|c' mid]; [discriminate|].
           rewrite app_String in E. injection E as <- ->.
           simpl in L. injection L as L. now exists mid.
      * split; [discriminate|].
        intros (mid & E & L). destruct mid as [|c' mid]; [discriminate|].
        rewrite app_String in E. injection E as <- ->.
        simpl in L. injection L as L _. contradiction.
Qed.

Lemma occurs_ci_unfold (pat s : string) :
  occurs_ci pat s =
  match eat_ci pat s with
  | Some _ => true
  | None => match s with
            | EmptyString => false
            | String _ s' => occurs_ci pat s'
            end
  end.
Proof. destruct s; reflexivity. Qed.

Lemma occurs_ci_spec (pat s : string) : occurs_ci pat s = true <-> mentions s pat.
Proof.
  split.
  - induction s as [|c s IH]; rewrite occurs_ci_unfold.
    + destruct (eat_ci pat "") as [r|] eqn:E; [|discriminate].
      intros _. apply eat_ci_spec in E as (mid & E & L). now exists "", mid, r.
    + destruct (eat_ci pat (String c s)) as [r|] eqn:E.
      * intros _. apply eat_ci_spec in E as (mid & E & L). now exists "", mid, r.
      * intros O. destruct (IH O) as (pre & mid & post & -> & L).
        now exists (String c pre), mid, post.
  - intros (pre & mid & post & -> & L).
    induction pre as [|c pre IH]; rewrite occurs_ci_unfold.
    + replace (eat_ci pat ("" ++ mid ++ post)) with (Some post); [reflexivity|].
      symmetry. apply eat_ci_spec. now exists mid.
    + rewrite app_String. destruct (eat_ci pat _); [reflexivity | exact IH].
Qed.

(** The test of the selector is the search of the three tokens. *)
Lemma priority_test_spec (u : string) :
  priority_test u = true <-> exists tok, tok ∈ priority_tokens /\ mentions u tok.
Proof.
  unfold priority_test, priority_tokens.
  rewrite !orb_true_iff, !occurs_ci_spec. split.
  - intros [[M|M]|M]; eexists; (split; [|exact M]); set_solver.
  - intros (tok & Hin & M).
    apply elem_of_cons in Hin as [->|Hin]; [tauto|].
    apply elem_of_cons in Hin as [->|Hin]; [tauto|].
    apply list_elem_of_singleton in Hin as ->. tauto.
Qed.

Lemma find_first {A : Type} (f : A -> bool) (l1 l2 : list A) (u : A) :
  f u = true -> (forall x, x ∈ l1 -> f x = false) ->
  List.find f (l1 ++ u :: l2) = Some u.
Proof.
  intros Hu. induction l1 as [|a l1 IH]; intros Hl1; simpl.
  - now rewrite Hu.
  - rewrite (Hl1 a) by apply list_elem_of_here.
    apply IH. intros x Hx. apply Hl1. now apply list_elem_of_further.
Qed.

Lemma find_none {A : Type} (f : A -> bool) (l : list A) :
  (forall x, x ∈ l -> f x = false) -> List.find f l = None.
Proof.
  induction l as [|a l IH]; intros Hl; simpl; [reflexivity|].
  rewrite (Hl a) by apply list_elem_of_here.
  apply IH. intros x Hx. apply Hl. now apply list_elem_of_further.
Qed.

(** What the selector returns on any array of strings. *)
Lemma select_best_unfold (urls : list string) :
  select_best urls =
  match List.find priority_test urls with
  | Some u => Some u
  | None => match urls with
            | u :: _ => if JS.truthy u then Some u else None
            | [] => None
            end
  end.
Proof.
  unfold select_best. destruct (List.find priority_test urls) as [u|] eqn:F;
    [|reflexivity].
  apply List.find_some in F as [_ F].
  destruct u as [|c u]; [discriminate F | reflexivity].
Qed.

(** C6. On a list of candidates, which are URLs and so non-empty strings,
    the selector returns the first one, in the order of the list, that
    has an occurrence of [master], [index] or [playlist] up to case; the
    first candidate when none has; and [null] on the empty list. *)
Theorem select_best_spec (urls : list string) :
  Forall (fun u => u <> "") urls ->
  (forall u, priority_test u = true
             <-> exists tok, tok ∈ priority_tokens /\ mentions u tok)
  /\ (forall l1 u l2,
        urls = (l1 ++ u :: l2)%list ->
        priority_test u = true ->
        (forall x, x ∈ l1 -> priority_test x = false) ->
        select_best urls = Some u)
  /\ ((forall x, x ∈ urls -> priority_test x = false) ->
      select_best urls = head urls)
  /\ select_best [] = None.
Proof.
  intros Hne. split; [exact priority_test_spec|]. split; [|split].
  - intros l1 u l2 -> Hu Hl1.
    rewrite select_best_unfold, (find_first _ _ _ _ Hu Hl1). reflexivity.
  - intros Hnone. rewrite select_best_unfold, (find_none _ _ Hnone).
    destruct Hne as [|u rest Hu _]; [reflexivity|].
    apply truthy_true in Hu. simpl. now rewrite Hu.
  - reflexivity.
Qed.

Lemma select_best_spec_witness :
  select_best ["https://x/seg1.m3u8"; "https://x/master.m3u8"]
    = Some "https://x/master.m3u8"
  /\ select_best ["https://x/a.m3u8"] = Some "https://x/a.m3u8".
Proof.
  split.
  - destruct (select_best_spec ["https://x/seg1.m3u8"; "https://x/master.m3u8"])
      as (_ & Hfirst & _).
    + repeat constructor; discriminate.
    + apply (Hfirst ["https://x/seg1.m3u8"] _ []); [reflexivity..|].
      intros x Hx. apply list_elem_of_singleton in Hx as ->. reflexivity.
  - destruct (select_best_spec ["https://x/a.m3u8"]) as (_ & _ & Hnone & _).
    + repeat constructor; discriminate.
    + apply Hnone.
      intros x Hx. apply list_elem_of_singleton in Hx as ->. reflexivity.
Defined.

(** ** The manifest extractor *)

Section Extractor.

Context `{Platform}.

Lemma try_add_NoDup (baseUrl m : string) (c : JS.StringSet) :
  NoDup c -> NoDup (try_add baseUrl m c).
Proof.
  unfold try_add. destruct (URL_new m (Some baseUrl)); [apply NoDup_add | auto].
Qed.

(** In the two loops a match that does not resolve changes nothing. *)
Lemma try_add_discards (baseUrl m : string) (c : JS.StringSet) :
  URL_new m (Some baseUrl) = None -> try_add baseUrl m c = c.
Proof. unfold try_add. now intros ->. Qed.

Lemma each_media_NoDup (els : list Dom.Node) (baseUrl : string)
    (c c' : JS.StringSet) :
  each_media els baseUrl c = Ok c' -> NoDup c -> NoDup c'.
Proof.
  revert c. induction els as [|el els IH]; intros c; simpl.
  - now intros [= ->].
  - destruct (src_or_href el) as [src|]; [|apply IH].
    destruct (JS.truthy src); [|apply IH].
    destruct (URL_new src (Some baseUrl)) as [u|]; [|discriminate].
    intros E Hc. apply (IH _ E). now apply NoDup_add.
Qed.

(** In the DOM pass the first element whose address does not resolve
    ends the extractor with the exception of [new URL]. *)
Lemma each_media_throws (el : Dom.Node) (els : list Dom.Node)
    (baseUrl src : string) (c : JS.StringSet) :
  src_or_href el = Some src -> src <> "" ->
  URL_new src (Some baseUrl) = None ->
  each_media (el :: els) baseUrl c = Thrown invalid_url.
Proof.
  intros Hsrc Hne Hu. simpl. rewrite Hsrc, Hu.
  apply truthy_true in Hne. now rewrite Hne.
Qed.

Lemma each_script_NoDup (els : list Dom.Node) (baseUrl : string)
    (c : JS.StringSet) :
  NoDup c -> NoDup (each_script els baseUrl c).
Proof.
  unfold each_script. revert c. induction els as [|el els IH]; intros c Hc;
    simpl; [exact Hc|].
  apply IH. apply scan_invariant; [|exact Hc].
  intros m s. apply try_add_NoDup.
Qed.

Lemma extractM3U8_NoDup (html baseUrl : string) (l : list string) :
  extractM3U8 html baseUrl = Ok l -> NoDup l.
Proof.
  unfold extractM3U8.
  destruct (each_media _ baseUrl []) as [c1|] eqn:E; [|discriminate].
  intros [= <-]. unfold JS.Array_from.
  apply scan_invariant; [intros m s; apply try_add_NoDup|].
  apply each_script_NoDup. apply (each_media_NoDup _ _ _ _ E). constructor.
Qed.

(** The candidates that the DOM pass found come first in the result, in
    the order in which it found them: the later passes only append. *)
Lemma extractM3U8_keeps_order (html baseUrl : string) (l : list string) :
  extractM3U8 html baseUrl = Ok l ->
  exists c1,
    each_media (Dom.select media_selector (cheerio_load html)) baseUrl []
    = Ok c1
    /\ c1 `prefix_of` l.
Proof.
  unfold extractM3U8.
  destruct (each_media _ baseUrl []) as [c1|] eqn:E; [|discriminate].
  intros [= <-]. exists c1. split; [reflexivity|]. unfold JS.Array_from.
  assert (Htry : forall m c, c1 `prefix_of` c -> c1 `prefix_of` try_add baseUrl m c).
  { intros m c Hc. unfold try_add.
    destruct (URL_new m (Some baseUrl)); [|exact Hc].
    etransitivity; [exact Hc | apply add_prefix]. }
  apply scan_invariant; [exact Htry|].
  assert (Hscripts : forall els c,
             c1 `prefix_of` c -> c1 `prefix_of` each_script els baseUrl c).
  { unfold each_script.
    induction els as [|el els IH]; intros c Hc; simpl; [exact Hc|].
    apply IH. now apply scan_invariant. }
  now apply Hscripts.
Qed.

(** The candidates of the static variant are not empty strings, an [href]
    being never empty. *)
Lemma extractM3U8_nonempty (html baseUrl : string) (l : list string) :
  (forall input base u, URL_new input base = Some u -> href u <> "") ->
  extractM3U8 html baseUrl = Ok l ->
  Forall (fun u => u <> "") l.
Proof.
  intros Hhref. unfold extractM3U8.
  assert (Hadd : forall u c, Forall (fun u => u <> "") c -> u <> "" ->
                             Forall (fun u => u <> "") (JS.add u c)).
  { intros u c Hc Hu. unfold JS.add. destruct (JS.has u c); [exact Hc|].
    apply Forall_app. split; [exact Hc | now constructor]. }
  assert (Htry : forall m c, Forall (fun u => u <> "") c ->
                             Forall (fun u => u <> "") (try_add baseUrl m c)).
  { intros m c Hc. unfold try_add.
    destruct (URL_new m (Some baseUrl)) as [u|] eqn:E; [|exact Hc].
    apply Hadd; [exact Hc | now apply Hhref in E]. }
  assert (Hmedia : forall els c c',
             each_media els baseUrl c = Ok c' ->
             Forall (fun u => u <> "") c -> Forall (fun u => u <> "") c').
  { induction els as [|el els IH]; intros c c'; simpl.
    - now intros [= ->].
    - destruct (src_or_href el) as [src|]; [|apply IH].
      destruct (JS.truthy src); [|apply IH].
      destruct (URL_new src (Some baseUrl)) as [u|] eqn:E; [|discriminate].
      intros E' Hc. apply (IH _ _ E'). apply Hadd; [exact Hc|].
      now apply Hhref in E. }
  destruct (each_media _ baseUrl []) as [c1|] eqn:E; [|discriminate].
  intros [= <-]. unfold JS.Array_from.
  apply scan_invariant; [exact Htry|].
  unfold each_script. generalize (Hmedia _ _ _ E (Forall_nil_2 _)).
  generalize (Dom.select script_selector (cheerio_load html)). clear E.
  intros els. revert c1. induction els as [|el els IH]; intros c Hc;
    simpl; [exact Hc|].
  apply IH. now apply scan_invariant.
Qed.

(** C9. Two runs of the extractor on the same HTML text and base URL end
    the same way, with the same candidates in the same order, and a list
    they return has no string twice. Nothing is carried from one run to
    the next: each loop runs on a regular expression of its own, ends
    within [length text + 1] calls of [exec] and leaves [lastIndex] at 0. *)
Theorem extractM3U8_idempotent (html baseUrl : string) :
  let first := extractM3U8 html baseUrl in
  let second := extractM3U8 html baseUrl in
  first = second
  /\ match first with
     | Ok candidates => NoDup candidates
     | Thrown _ => True
     end
  /\ (forall text c,
        while_exec (S (String.length text)) fresh text (try_add baseUrl) c
        = Some (scan text (try_add baseUrl) c, fresh)).
Proof.
  cbv zeta. split; [reflexivity|]. split.
  - destruct (extractM3U8 html baseUrl) as [l|] eqn:E; [|exact I].
    now apply extractM3U8_NoDup in E.
  - intros text c. apply scan_completes.
Qed.

End Extractor.

(** C3. A link whose address does not resolve makes the extractor throw:
    the DOM pass calls [new URL] outside any [try], and the static
    [/scrape] answers 500 for the page. The same address in a script is
    dropped by the script pass and by the raw-text pass, with no error. *)
Theorem dom_pass_throws :
  URL_new (Platform := Sample.platform) "http://[x/a.m3u8"
          (Some "https://h.test/p") = None
  /\ extractM3U8 (H := Sample.platform) Sample.page_bad_link "https://h.test/p"
     = Thrown "Invalid URL"
  /\ extractM3U8 (H := Sample.platform) Sample.page_bad_script "https://h.test/p"
     = Ok []
  /\ statusCode
       (fst (run (Sample.env (Responded 200 ∅ Sample.page_bad_link None) [] "" "")
                 []
                 (serve (scrape_static (H := Sample.platform) [])
                        (Sample.get "url" "https://h.test/p" []))))
     = 500.
Proof. repeat split; vm_compute; reflexivity. Qed.

(** ** Running handlers *)

Lemma run_bind {A B : Type} (env : Env) (hist : list Event) (m : io A)
    (f : A -> io B) :
  run env hist (m ≫= f) =
  let '(a, hist') := run env hist m in run env hist' (f a).
Proof.
  revert hist. induction m as [a|X e k IH]; intros hist; [reflexivity|].
  exact (IH _ _).
Qed.

Lemma run_await {X : Type} (env : Env) (hist : list Event) (e : Eff X) :
  run env hist (await e)
  = (env hist X e, (hist ++ [event e (env hist X e)])%list).
Proof. reflexivity. Qed.

Lemma serve_route (route : Request -> Res -> io Res) (req : Request) :
  method req <> "OPTIONS" -> serve route req = route req cors_res.
Proof.
  intros Hm. unfold serve, cors.
  destruct (String.eqb_spec (method req) "OPTIONS"); [contradiction | reflexivity].
Qed.

Lemma serve_options (route : Request -> Res -> io Res) (req : Request) :
  method req = "OPTIONS" -> serve route req = Ret (sendStatus_200 cors_res).
Proof. intros Hm. unfold serve, cors. now rewrite Hm. Qed.

Lemma falsy_false (src : string) : src <> "" -> JS.falsy (Some src) = false.
Proof. intros Hne. apply truthy_true in Hne. simpl. now rewrite Hne. Qed.

(** ** The relay *)

Lemma proxy_validateStatus_spec (s : Z) :
  proxy_validateStatus s = true <-> 200 <= s < 400.
Proof. unfold proxy_validateStatus. lia. Qed.

Section Relay.

Context `{Platform}.
Variable ALLOWLIST : list string.

(** One request goes upstream, and its outcome decides the response. *)
Lemma proxy_run (env : Env) (hist : list Event) (req : Request) (res : Res)
    (src : string) (u : URL) :
  query req !! "src" = Some src -> src <> "" ->
  isAllowed ALLOWLIST src = true ->
  URL_new src None = Some u ->
  run env hist (proxy ALLOWLIST req res) =
  let config := proxy_config req u in
  let out := env hist _ (AxiosGet src config) in
  (match settle config out with
   | Thrown message => proxy_catch message res
   | Ok upstream =>
       pipe (upstream_data upstream)
            (setHeader "Access-Control-Allow-Origin" "*" (mirror upstream res))
   end,
   (hist ++ [event (AxiosGet src config) out])%list).
Proof.
  intros Hq Hne Hal Hu. unfold proxy.
  rewrite Hq, (falsy_false _ Hne). cbn [from_option id].
  rewrite Hal, Hu. cbn [negb]. rewrite run_bind, run_await. cbv zeta.
  destruct (settle _ _); reflexivity.
Qed.

Lemma mirror_step_status (upstream : AxiosResponse) (l : list string) (res : Res) :
  let step r h :=
    match upstream_headers upstream !! h with
    | Some v => if JS.truthy v then setHeader h v r else r
    | None => r
    end in
  statusCode (fold_left step l res) = statusCode res
  /\ body (fold_left step l res) = body res.
Proof.
  cbv zeta. revert res. induction l as [|h l IH]; intros res; simpl; [auto|].
  destruct (IH (match upstream_headers upstream !! h with
                | Some v => if JS.truthy v then setHeader h v res else res
                | None => res
                end)) as [-> ->].
  destruct (upstream_headers upstream !! h) as [v|]; [|auto].
  destruct (JS.truthy v); auto.
Qed.

Lemma mirror_step_other (upstream : AxiosResponse) (l : list string)
    (res : Res) (name : string) :
  let step r h :=
    match upstream_headers upstream !! h with
    | Some v => if JS.truthy v then setHeader h v r else r
    | None => r
    end in
  Forall (fun h => JS.toLowerCase h = h) l -> name ∉ l ->
  headers (fold_left step l res) !! name = headers res !! name.
Proof.
  cbv zeta. intros Hl. revert res.
  induction Hl as [|h l Hh Hl IH]; intros res Hnot; simpl; [reflexivity|].
  apply not_elem_of_cons in Hnot as [Hne Hnot]. rewrite IH by exact Hnot.
  destruct (upstream_headers upstream !! h) as [v|]; [|reflexivity].
  destruct (JS.truthy v); [|reflexivity].
  simpl. rewrite Hh. now apply lookup_insert_ne.
Qed.

Lemma mirror_step_copied (upstream : AxiosResponse) (l : list string)
    (res : Res) (name v : string) :
  let step r h :=
    match upstream_headers upstream !! h with
    | Some v => if JS.truthy v then setHeader h v r else r
    | None => r
    end in
  Forall (fun h => JS.toLowerCase h = h) l -> name ∈ l ->
  upstream_headers upstream !! name = Some v -> v <> "" ->
  headers (fold_left step l res) !! name = Some v.
Proof.
  cbv zeta. intros Hl Hin Hv Hne. revert res Hin.
  induction Hl as [|h l Hh Hl IH]; intros res Hin; [now apply elem_of_nil in Hin|].
  simpl. destruct (decide (name ∈ l)) as [Hl'|Hl']; [now apply IH|].
  apply elem_of_cons in Hin as [->|Hin]; [|contradiction].
  rewrite (mirror_step_other upstream l _ h Hl Hl'), Hv.
  apply truthy_true in Hne. rewrite Hne. simpl. rewrite Hh.
  apply lookup_insert_eq.
Qed.

Lemma passthrough_lower : Forall (fun h => JS.toLowerCase h = h) passthrough.
Proof. repeat constructor. Qed.

End Relay.

Lemma prefix_app (m post : string) : String.prefix m (m ++ post) = true.
Proof.
  induction m as [|c m IH]; [now destruct post|].
  rewrite app_String. cbn [String.prefix].
  destruct (ascii_dec c c); [exact IH | contradiction].
Qed.

Lemma includes_unfold (s t : string) :
  JS.includes s t =
  if String.prefix t s then true
  else match s with
       | EmptyString => false
       | String _ s' => JS.includes s' t
       end.
Proof. destruct s; reflexivity. Qed.

Lemma includes_app (pre m : string) : JS.includes (pre ++ m) m = true.
Proof.
  induction pre as [|c pre IH]; rewrite includes_unfold.
  - replace ("" ++ m) with (m ++ "").
    + now rewrite prefix_app.
    + clear. induction m as [|c m IH]; [reflexivity|].
      rewrite app_String, IH. reflexivity.
  - rewrite app_String. destruct (String.prefix m _); [reflexivity | exact IH].
Qed.

Lemma includes_empty (s : string) : JS.includes s "" = true.
Proof. rewrite includes_unfold. now destruct s. Qed.

Lemma statusCode_pipe (d : string) (r : Res) :
  statusCode (pipe d r) = statusCode r.
Proof. reflexivity. Qed.

Lemma statusCode_setHeader (n v : string) (r : Res) :
  statusCode (setHeader n v r) = statusCode r.
Proof. reflexivity. Qed.

Lemma headers_pipe (d : string) (r : Res) : headers (pipe d r) = headers r.
Proof. reflexivity. Qed.

Lemma headers_setHeader (n v : string) (r : Res) :
  headers (setHeader n v r) = <[JS.toLowerCase n := v]> (headers r).
Proof. reflexivity. Qed.

Section RelayClaims.

Context `{Platform}.
Variable ALLOWLIST : list string.

(** C8, as the code has it. The relay takes the statuses from 200 to
    399 as success and no other, and sends one request upstream, never a
    second. A response whose status is in that range is piped to the
    caller, and is never answered 502. When the awaited request fails, by
    a fault of the transport or by a status outside the range, the caller
    gets a 502 whose text body is [Upstream error: ] followed by the
    message of the fault (by [Bad gateway] when the message is empty). A
    fault of the connection after the head of an accepted response has
    arrived is not a failure of the awaited request: the relay pipes what
    arrived and sends no 502. *)
Theorem proxy_upstream_failure (env : Env) (req : Request) (src : string)
    (u : URL) :
  method req <> "OPTIONS" ->
  query req !! "src" = Some src -> src <> "" ->
  isAllowed ALLOWLIST src = true ->
  URL_new src None = Some u ->
  let out := env [] _ (AxiosGet src (proxy_config req u)) in
  let '(res, tr) := run env [] (serve (proxy ALLOWLIST) req) in
  (forall s, proxy_validateStatus s = true <-> 200 <= s < 400)
  /\ upstream_gets tr = 1%nat
  /\ (forall s h d r,
        out = Responded s h d r ->
        (200 <= s < 400 ->
         statusCode res = 200 /\ body res = Piped d)
        /\ (~ (200 <= s < 400) ->
            bad_gateway res ("Request failed with status code " ++ pretty s)))
  /\ (forall message, out = NetworkFault message -> bad_gateway res message)
  /\ (forall s h t r,
        out = stream_response s h t r -> 200 <= s < 400 ->
        statusCode res = 200 /\ body res = Piped (bytes_of t)).
Proof.
  intros Hm Hq Hne Hal Hu. cbv zeta.
  rewrite (serve_route _ _ Hm), (proxy_run _ env [] req _ src u Hq Hne Hal Hu).
  cbv zeta. split; [exact proxy_validateStatus_spec|].
  split; [reflexivity|].
  assert (Hcatch : forall message,
             bad_gateway (proxy_catch message cors_res) message).
  { intros message. unfold bad_gateway, proxy_catch.
    assert (Hor : JS.or_else (Some message) "Bad gateway"
                  = if decide (message = "") then "Bad gateway" else message).
    { destruct (decide (message = "")) as [->|Hmsg]; [reflexivity|].
      apply truthy_true in Hmsg. simpl. now rewrite Hmsg. }
    rewrite Hor. split; [reflexivity|]. split; [reflexivity|].
    split; [reflexivity|].
    destruct (decide (message = "")) as [->|_];
      [apply includes_empty | apply includes_app]. }
  assert (Hpiped : forall s h d r,
             env [] _ (AxiosGet src (proxy_config req u)) = Responded s h d r ->
             200 <= s < 400 ->
             statusCode
               (match settle (proxy_config req u)
                        (env [] _ (AxiosGet src (proxy_config req u))) with
                | Thrown message => proxy_catch message cors_res
                | Ok upstream =>
                    pipe (upstream_data upstream)
                         (setHeader "Access-Control-Allow-Origin" "*"
                                    (mirror upstream cors_res))
                end) = 200
             /\ body
                  (match settle (proxy_config req u)
                           (env [] _ (AxiosGet src (proxy_config req u))) with
                   | Thrown message => proxy_catch message cors_res
                   | Ok upstream =>
                       pipe (upstream_data upstream)
                            (setHeader "Access-Control-Allow-Origin" "*"
                                       (mirror upstream cors_res))
                   end) = Piped d).
  { intros s h d r -> Hs. cbn [settle proxy_config validateStatus].
    apply proxy_validateStatus_spec in Hs. rewrite Hs.
    rewrite statusCode_pipe, statusCode_setHeader. unfold mirror.
    destruct (mirror_step_status
                {| upstream_status := s; upstream_headers := h;
                   upstream_data := d; upstream_responseUrl := r |}
                passthrough cors_res) as [-> _].
    split; reflexivity. }
  split; [|split].
  - intros s h d r Hout. split; [now apply (Hpiped s h d r)|].
    intros Hs. cbn [fst]. rewrite Hout. cbn [settle proxy_config validateStatus].
    destruct (proxy_validateStatus s) eqn:V;
      [apply proxy_validateStatus_spec in V; contradiction | apply Hcatch].
  - intros message Hout. cbn [fst]. rewrite Hout. apply Hcatch.
  - intros s h t r Hout Hs. now apply (Hpiped s h (bytes_of t) r).
Qed.

(** C2, as the code has it. When the upstream request succeeds the relay
    never writes a status: the caller gets the 200 of a new response
    whatever the upstream status was, with the body of the upstream
    response, its non-empty passthrough headers, and the wildcard in
    place of the upstream [access-control-allow-origin]. *)
Theorem proxy_success_status (env : Env) (req : Request) (src : string)
    (u : URL) (s : Z) (h : gmap string string) (d : string)
    (r : option string) :
  method req <> "OPTIONS" ->
  query req !! "src" = Some src -> src <> "" ->
  isAllowed ALLOWLIST src = true ->
  URL_new src None = Some u ->
  env [] _ (AxiosGet src (proxy_config req u)) = Responded s h d r ->
  200 <= s < 400 ->
  let res := fst (run env [] (serve (proxy ALLOWLIST) req)) in
  statusCode res = 200
  /\ body res = Piped d
  /\ (forall name v,
        name ∈ passthrough -> name <> "access-control-allow-origin" ->
        h !! name = Some v -> v <> "" ->
        headers res !! name = Some v)
  /\ headers res !! "access-control-allow-origin" = Some "*".
Proof.
  intros Hm Hq Hne Hal Hu Hout Hs. cbv zeta.
  rewrite (serve_route _ _ Hm), (proxy_run _ env [] req _ src u Hq Hne Hal Hu).
  cbv zeta. rewrite Hout. simpl settle.
  apply proxy_validateStatus_spec in Hs. rewrite Hs.
  cbn [fst]. unfold mirror.
  set (up := {| upstream_status := s; upstream_headers := h;
                upstream_data := d; upstream_responseUrl := r |}).
  destruct (mirror_step_status up passthrough cors_res) as [Hst Hbody].
  rewrite statusCode_pipe, statusCode_setHeader, Hst.
  rewrite headers_pipe, headers_setHeader.
  change (JS.toLowerCase "Access-Control-Allow-Origin")
    with "access-control-allow-origin".
  split; [reflexivity|]. split; [reflexivity|]. split.
  - intros name v Hin Hacao Hv Hv'.
    rewrite lookup_insert_ne by congruence.
    now apply (mirror_step_copied up passthrough cors_res name v passthrough_lower).
  - apply lookup_insert_eq.
Qed.

End RelayClaims.

(** C2, as stated, fails: an upstream 206 reaches the caller as a 200. *)
Lemma proxy_status_not_mirrored :
  let upstream :=
    Responded 206 {[ "content-range" := "bytes 0-99/1000" ]} "segment" None in
  let req := Sample.get "src" "https://cdn.test/seg.ts" [("range", "bytes=0-99")] in
  let res :=
    fst (run (Sample.env upstream [] "" "") []
             (serve (proxy (H := Sample.platform) []) req)) in
  proxy_validateStatus 206 = true
  /\ body res = Piped "segment"
  /\ headers res !! "content-range" = Some "bytes 0-99/1000"
  /\ statusCode res = 200
  /\ statusCode res <> 206.
Proof. cbv zeta. repeat split; vm_compute; congruence. Qed.

Lemma proxy_success_status_witness :
  statusCode
    (fst (run (Sample.env (Responded 206 {[ "content-range" := "bytes 0-99/1000" ]}
                             "segment" None) [] "" "") []
              (serve (proxy (H := Sample.platform) [])
                     (Sample.get "src" "https://cdn.test/seg.ts"
                                 [("range", "bytes=0-99")]))))
  = 200.
Proof.
  refine (proj1 (@proxy_success_status Sample.platform [] _ _
                   "https://cdn.test/seg.ts" _ 206 _ "segment" None
                   _ _ _ _ _ _ _)).
  - discriminate.
  - reflexivity.
  - discriminate.
  - reflexivity.
  - reflexivity.
  - reflexivity.
  - lia.
Defined.

Lemma proxy_upstream_failure_witness :
  let res :=
    fst (run (Sample.env (Responded 404 ∅ "not found" None) [] "" "") []
             (serve (proxy (H := Sample.platform) [])
                    (Sample.get "src" "https://cdn.test/seg.ts" []))) in
  statusCode res = 502
  /\ body res = SendText "Upstream error: Request failed with status code 404".
Proof.
  cbv zeta.
  pose proof (@proxy_upstream_failure Sample.platform []
                (Sample.env (Responded 404 ∅ "not found" None) [] "" "")
                (Sample.get "src" "https://cdn.test/seg.ts" [])
                "https://cdn.test/seg.ts"
                {| href := "https://cdn.test/seg.ts";
                   origin := "https://cdn.test";
                   hostname := "cdn.test" |}) as Hrun.
  cbv zeta in Hrun. destruct (run _ _ _) as [res tr].
  destruct Hrun as (_ & _ & Hresp & _);
    [discriminate | reflexivity | discriminate | reflexivity | reflexivity |].
  destruct (Hresp 404 ∅ "not found" None eq_refl) as [_ Hbad].
  destruct Hbad as (Hst & Hbody & _); [lia|].
  split; [exact Hst | exact Hbody].
Defined.

(** C8, as stated, fails: the upstream connection breaks after the head
    of a 200 and a part of the body. The awaited request had succeeded by
    then, so the [catch] does not run: the caller has the head of a 200
    and the bytes that arrived, and no [Upstream error:] text. *)
Lemma proxy_stream_fault_not_reported :
  let upstream :=
    stream_response 200 {[ "content-type" := "video/mp2t" ]}
                    (Broken "segm" "socket hang up") None in
  let res :=
    fst (run (Sample.env upstream [] "" "") []
             (serve (proxy (H := Sample.platform) [])
                    (Sample.get "src" "https://cdn.test/seg.ts" []))) in
  statusCode res = 200
  /\ statusCode res <> 502
  /\ body res = Piped "segm"
  /\ message_of res = None.
Proof. cbv zeta. repeat split; vm_compute; congruence. Qed.

(** ** The discovery endpoint *)

Lemma select_best_member (urls : list string) (u : string) :
  select_best urls = Some u -> u ∈ urls.
Proof.
  rewrite select_best_unfold.
  destruct (List.find priority_test urls) as [v|] eqn:F.
  - intros [= <-]. apply List.find_some in F as [F _]. now apply list_elem_of_In.
  - destruct urls as [|v rest]; [discriminate|].
    destruct (JS.truthy v); [|discriminate].
    intros [= <-]. apply list_elem_of_here.
Qed.

(** What the request callback has collected from the requests [seen]:
    those that contain [.m3u8], once each. *)
Lemma on_request_spec (seen : list string) (c : JS.StringSet) :
  NoDup c ->
  NoDup (fold_left on_request seen c)
  /\ forall u, u ∈ fold_left on_request seen c
               <-> u ∈ c \/ (u ∈ seen /\ JS.includes u ".m3u8" = true).
Proof.
  revert c. induction seen as [|x seen IH]; intros c Hc; simpl.
  - split; [exact Hc|]. intros u. rewrite elem_of_nil. tauto.
  - assert (Hc' : NoDup (on_request c x)).
    { unfold on_request. destruct (JS.includes x ".m3u8"); [now apply NoDup_add | exact Hc]. }
    destruct (IH _ Hc') as [Hnd Hin]. split; [exact Hnd|].
    intros u. rewrite Hin, elem_of_cons. unfold on_request.
    destruct (JS.includes x ".m3u8") eqn:E.
    + rewrite elem_of_add. split.
      * intros [[Hu| ->]|[Hu Hi]]; auto.
      * intros [Hu|[[->|Hu] Hi]]; auto.
    + split.
      * intros [Hu|[Hu Hi]]; auto.
      * intros [Hu|[[->|Hu] Hi]]; auto. congruence.
Qed.

(** A candidate of the rendered variant is never the empty string. *)
Lemma on_request_nonempty (seen : list string) :
  Forall (fun u => u <> "") (fold_left on_request seen []).
Proof.
  apply Forall_forall. intros u Hu.
  apply (on_request_spec seen [] (NoDup_nil_2)) in Hu as [Hu|[_ Hi]].
  - now apply elem_of_nil in Hu.
  - intros ->. discriminate Hi.
Qed.

Lemma scrape_ok_consistent (page : string) (meta : Meta) (urls : list string)
    (res : Res) :
  consistent (send_json (scrape_ok page meta urls (select_best urls)) res).
Proof.
  unfold consistent. cbn.
  destruct (select_best urls) as [u|] eqn:E; cbn.
  - exists urls. split; [reflexivity | now apply select_best_member].
  - now exists urls.
Qed.

(** One step of a run: the next effect of the handler is answered. *)
Ltac run_step env :=
  first
    [ rewrite run_bind
    | rewrite run_await
    | progress cbv zeta
    | progress cbn [run fst snd]
    | match goal with
      | |- context [match env ?h (Result unit) ?e with _ => _ end] =>
          destruct (env h (Result unit) e) as [[]|?] eqn:?
      | |- context [match env ?h (list string * Result unit)%type ?e
                    with _ => _ end] =>
          destruct (env h (list string * Result unit)%type e)
            as [? [[]|?]] eqn:?
      | |- context [match env ?h (list string * Result string)%type ?e
                    with _ => _ end] =>
          destruct (env h (list string * Result string)%type e)
            as [? [?|?]] eqn:?
      | |- context [match env ?h ?X ?e with _ => _ end] =>
          destruct (env h X e) eqn:?
      end ].

Section Discovery.

Context `{Platform}.
Variable ALLOWLIST : list string.

(** C7. In every response of [/scrape], static or rendered, [best] is
    [null] or one of the strings of [m3u8Urls]. *)
Theorem best_is_candidate (env : Env) (req : Request) :
  consistent (fst (run env [] (serve (scrape_static ALLOWLIST) req)))
  /\ consistent (fst (run env [] (serve (scrape_rendered ALLOWLIST) req))).
Proof.
  split.
  - unfold serve, cors.
    destruct (String.eqb (method req) "OPTIONS"); [exact I|].
    unfold scrape_static.
    destruct (JS.falsy _); [cbn; discriminate|].
    destruct (isAllowed _ _); cbn [negb]; [|cbn; discriminate].
    rewrite run_bind, run_await. cbv zeta.
    destruct (settle _ _) as [response|message]; [|cbn; discriminate].
    destruct (extractM3U8 _ _) as [urls|message]; [|cbn; discriminate].
    apply scrape_ok_consistent.
  - unfold serve, cors.
    destruct (String.eqb (method req) "OPTIONS"); [exact I|].
    unfold scrape_rendered.
    destruct (JS.falsy _); [cbn; discriminate|].
    destruct (isAllowed _ _); cbn [negb]; [|cbn; discriminate].
    rewrite run_bind, run_await. cbv zeta.
    destruct (env _ _ PuppeteerLaunch) as [[]|message]; [|cbn; discriminate].
    unfold render. repeat run_step env;
      first [ apply scrape_ok_consistent | cbn; discriminate ].
Qed.

End Discovery.

Section DiscoveryClaims.

Context `{Platform}.
Variable ALLOWLIST : list string.

(** C5, as the code has it. In the rendered variant the candidates of a
    successful [/scrape] are the requests that the page made while it
    loaded and settled, those whose URL contains [.m3u8], once each in the
    order of their first occurrence; the rendered HTML gives the metadata
    and no candidate. *)
Theorem rendered_candidates_from_network (env : Env) (req : Request) :
  let '(res, tr) := run env [] (serve (scrape_rendered ALLOWLIST) req) in
  forall j, body res = SendJson j -> field "ok" j = Some (JBool true) ->
  let candidates := fold_left on_request (requests_seen tr) [] in
  field "m3u8Urls" j = Some (JArray (List.map JString candidates))
  /\ field "best" j = Some (JString_or_null (select_best candidates))
  /\ NoDup candidates
  /\ forall u, u ∈ candidates
               <-> u ∈ requests_seen tr /\ JS.includes u ".m3u8" = true.
Proof.
  unfold serve, cors.
  destruct (String.eqb (method req) "OPTIONS"); [cbn; discriminate|].
  unfold scrape_rendered.
  destruct (JS.falsy _); [cbn; intros j [= <-]; discriminate|].
  destruct (isAllowed _ _); cbn [negb]; [|cbn; intros j [= <-]; discriminate].
  unfold render. repeat run_step env.
  all: try (cbn; intros j [= <-]; discriminate).
  intros j [= <-] _. unfold requests_seen. rewrite !flat_map_app.
  cbn [flat_map requests_of event fst app]. rewrite !app_nil_r.
  destruct (on_request_spec ((l ++ l0) ++ l1) [] (NoDup_nil_2)) as [Hnd Hin].
  rewrite !fold_left_app in *. unfold JS.Array_from.
  split; [reflexivity|]. split; [reflexivity|].
  split; [exact Hnd|].
  intros u. rewrite Hin, elem_of_nil. tauto.
Qed.

(** The statuses of the rendered [/scrape]: 400 and [ok: false] without
    [url], 403 and [ok: false] when the guard denies it, 500 with
    [ok: false] and the message when the browser or the page rejects, and
    200 with [ok: true] otherwise. *)
Lemma scrape_rendered_statuses (env : Env) (req : Request) :
  method req <> "OPTIONS" ->
  let '(res, tr) := run env [] (serve (scrape_rendered ALLOWLIST) req) in
  if JS.falsy (query req !! "url")
  then statusCode res = 400 /\ ok_of res = Some (JBool false)
  else if negb (isAllowed ALLOWLIST (default "" (query req !! "url")))
  then statusCode res = 403 /\ ok_of res = Some (JBool false)
  else match omap rejection_of tr with
       | [] => statusCode res = 200 /\ ok_of res = Some (JBool true)
       | message :: _ =>
           statusCode res = 500
           /\ body res =
              SendJson
                (JObject [ ("ok", JBool false);
                           ("error", JString (JS.or_else (Some message)
                                                "Puppeteer failed")) ])
       end.
Proof.
  intros Hm. rewrite (serve_route _ _ Hm). unfold scrape_rendered.
  destruct (JS.falsy _); [cbn; auto|].
  destruct (isAllowed _ _); cbn [negb]; [|cbn; auto].
  unfold render. repeat run_step env; cbn; auto.
Qed.

(** C4 on the static variant. Without [url] the handler of
    [src/server.js] answers 400 with a body that has an [error] and no
    [ok], where the rendered variant sends [ok: false]. *)
Theorem scrape_static_missing_url (env : Env) (req : Request) :
  method req <> "OPTIONS" ->
  query req !! "url" = None ->
  let res := fst (run env [] (serve (scrape_static ALLOWLIST) req)) in
  statusCode res = 400
  /\ body res = SendJson (JObject [("error", JString "Missing ?url=")])
  /\ ok_of res = None.
Proof.
  intros Hm Hq. cbv zeta. rewrite (serve_route _ _ Hm).
  unfold scrape_static. rewrite Hq. cbn. auto.
Qed.

End DiscoveryClaims.

Lemma scrape_static_missing_url_witness :
  ok_of (fst (run (Sample.env (NetworkFault "") [] "" "") []
                  (serve (scrape_static (H := Sample.platform) [])
                         Sample.get_bare)))
  = None.
Proof.
  refine (proj2 (proj2 (@scrape_static_missing_url Sample.platform [] _ _ _ _))).
  - discriminate.
  - reflexivity.
Defined.

(** C5, as stated, fails: the rendered page names one manifest in the
    text of a script and links to another, the extractor finds both, the
    browser requested neither (it fetches the document and its icon), and
    the response has no candidate. *)
Lemma rendered_omits_html_candidates :
  let env :=
    Sample.env (NetworkFault "")
      [ "https://h.test/p"; "https://h.test/favicon.ico" ]
      "https://h.test/p" Sample.page_script in
  let res :=
    fst (run env []
             (serve (scrape_rendered (H := Sample.platform) [])
                    (Sample.get "url" "https://h.test/p" []))) in
  extractM3U8 (H := Sample.platform) Sample.page_script "https://h.test/p"
    = Ok ["https://h.test/a.m3u8"; "https://cdn.test/x/master.m3u8?t=1"]
  /\ statusCode res = 200
  /\ (exists j, body res = SendJson j
                /\ field "ok" j = Some (JBool true)
                /\ field "m3u8Urls" j = Some (JArray [])
                /\ field "best" j = Some JNull).
Proof.
  cbv zeta. split; [vm_compute; reflexivity|]. split; [vm_compute; reflexivity|].
  eexists. split; [vm_compute; reflexivity|].
  repeat split; vm_compute; reflexivity.
Qed.

Lemma rendered_candidates_from_network_witness :
  let env :=
    Sample.env (NetworkFault "")
      [ "https://cdn.test/v/master.m3u8"; "https://cdn.test/app.js";
        "https://cdn.test/v/master.m3u8" ]
      "https://h.test/p" Sample.page_video in
  exists res tr j,
    run env [] (serve (scrape_rendered (H := Sample.platform) [])
                      (Sample.get "url" "https://h.test/p" [])) = (res, tr)
    /\ body res = SendJson j
    /\ field "m3u8Urls" j
       = Some (JArray [JString "https://cdn.test/v/master.m3u8"]).
Proof.
  cbv zeta.
  pose proof (@rendered_candidates_from_network Sample.platform []
                (Sample.env (NetworkFault "")
                   [ "https://cdn.test/v/master.m3u8"; "https://cdn.test/app.js";
                     "https://cdn.test/v/master.m3u8" ]
                   "https://h.test/p" Sample.page_video)
                (Sample.get "url" "https://h.test/p" [])) as Hrun.
  destruct (run _ _ _) as [res tr] eqn:Erun.
  vm_compute in Erun. injection Erun as <- <-.
  eexists _, _, _. split; [reflexivity|]. split; [reflexivity|].
  exact (proj1 (Hrun _ eq_refl eq_refl)).
Defined.

(** ** The server on its test cases *)

Example extractor_on_script_and_link :
  extractM3U8 (H := Sample.platform) Sample.page_script "https://h.test/p"
  = Ok ["https://h.test/a.m3u8"; "https://cdn.test/x/master.m3u8?t=1"].
Proof. vm_compute. reflexivity. Qed.

Example pattern_stops_at_quotes :
  scan "src='HTTPS://cdn.test/a.M3U8?k=1' alt" (fun m l => (l ++ [m])%list) []
  = ["HTTPS://cdn.test/a.M3U8?k=1"].
Proof. vm_compute. reflexivity. Qed.

Example allowlist_from_environment :
  ALLOWLIST_of_env (Some "example.com, cdn.test") = ["example.com"; "cdn.test"]
  /\ ALLOWLIST_of_env (Some "") = [""]
  /\ ALLOWLIST_of_env None = [].
Proof. repeat split. Qed.

Example scrape_denied :
  statusCode
    (fst (run (Sample.env (NetworkFault "") [] "" "") []
              (serve (scrape_rendered (H := Sample.platform) ["example.com"])
                     (Sample.get "url" "https://other.com" []))))
  = 403.
Proof. vm_compute. reflexivity. Qed.

Example scrape_static_finds_best :
  body
    (fst (run (Sample.env (Responded 200 ∅ Sample.page_video None) [] "" "") []
              (serve (scrape_static (H := Sample.platform) [])
                     (Sample.get "url" "https://h.test/p" []))))
  = SendJson
      (scrape_ok "https://h.test/p"
         {| title := None; ogTitle := None; ogVideo := None;
            ogDescription := None |}
         ["https://cdn.test/v/master.m3u8"]
         (Some "https://cdn.test/v/master.m3u8")).
Proof. vm_compute. reflexivity. Qed.

Example proxy_forwards_range :
  snd (run (Sample.env (Responded 206 ∅ "segment" None) [] "" "") []
           (serve (proxy (H := Sample.platform) [])
                  (Sample.get "src" "https://cdn.test/seg.ts"
                              [("range", "bytes=0-99")])))
  = [ event
        (AxiosGet "https://cdn.test/seg.ts"
           {| responseType := "stream";
              userAgent := chrome_user_agent;
              range := Some "bytes=0-99";
              referer := Some "https://cdn.test";
              maxRedirects := 5;
              timeout := 20000;
              validateStatus := proxy_validateStatus |})
        (Responded 206 ∅ "segment" None) ].
Proof. vm_compute. reflexivity. Qed.

(** * Further properties of the server *)

(** ** The middleware and the guard in front of the routes *)

Lemma cors_res_has_cors : has_cors cors_res.
Proof. repeat split; vm_compute; reflexivity. Qed.

Lemma app_nonempty (a b : string) : a <> "" -> a ++ b <> "".
Proof. destruct a as [|c a]; [contradiction|]. rewrite app_String. discriminate. Qed.

Lemma or_else_nonempty (v : option string) (d : string) :
  d <> "" -> JS.or_else v d <> "".
Proof.
  intros Hd. destruct v as [s|]; simpl; [|exact Hd].
  destruct (JS.truthy s) eqn:E; [now apply truthy_true | exact Hd].
Qed.

(** What a header of the response is after the copy of the passthrough
    headers: what it was before, or the non-empty upstream value of a
    passthrough name. *)
Lemma mirror_step_inv (upstream : AxiosResponse) (l : list string)
    (res : Res) (name v : string) :
  let step r h :=
    match upstream_headers upstream !! h with
    | Some v => if JS.truthy v then setHeader h v r else r
    | None => r
    end in
  Forall (fun h => JS.toLowerCase h = h) l ->
  headers (fold_left step l res) !! name = Some v ->
  headers res !! name = Some v
  \/ (name ∈ l /\ upstream_headers upstream !! name = Some v /\ v <> "").
Proof.
  cbv zeta. intros Hl. revert res.
  induction Hl as [|h l Hh Hl IH]; intros res; simpl; [auto|].
  intros E. apply IH in E as [E|(Hin & Hv & Hne)].
  - destruct (upstream_headers upstream !! h) as [w|] eqn:Hw; [|auto].
    destruct (JS.truthy w) eqn:Tw; [|auto].
    rewrite headers_setHeader, Hh in E.
    destruct (decide (h = name)) as [->|Hneq].
    + rewrite lookup_insert_eq in E. injection E as ->.
      right. split; [apply list_elem_of_here|]. split; [exact Hw|].
      now apply truthy_true.
    + rewrite lookup_insert_ne in E by exact Hneq. auto.
  - right. split; [now apply list_elem_of_further | auto].
Qed.

Section Middleware.

Context `{Platform}.
Variable ALLOWLIST : list string.

(** The [/scrape] handlers write no header. *)
Lemma scrape_static_headers (env : Env) (hist : list Event) (req : Request)
    (res : Res) :
  headers (fst (run env hist (scrape_static ALLOWLIST req res))) = headers res.
Proof.
  unfold scrape_static.
  destruct (JS.falsy _); [reflexivity|].
  destruct (isAllowed _ _); cbn [negb]; [|reflexivity].
  rewrite run_bind, run_await. cbv zeta.
  destruct (settle _ _) as [response|message]; [|reflexivity].
  destruct (extractM3U8 _ _); reflexivity.
Qed.

Lemma scrape_rendered_headers (env : Env) (hist : list Event) (req : Request)
    (res : Res) :
  headers (fst (run env hist (scrape_rendered ALLOWLIST req res))) = headers res.
Proof.
  unfold scrape_rendered.
  destruct (JS.falsy _); [reflexivity|].
  destruct (isAllowed _ _); cbn [negb]; [|reflexivity].
  unfold render. repeat run_step env; reflexivity.
Qed.

(** X1. Every response of the server carries the three CORS headers of
    the middleware: the answer to a preflight, the answers of both
    [/scrape] variants, and the answers of the relay, where the wildcard
    origin stands even when the upstream response had an origin header
    of its own. *)
Theorem cors_on_every_response (env : Env) (req : Request) :
  has_cors (fst (run env [] (serve (proxy ALLOWLIST) req)))
  /\ has_cors (fst (run env [] (serve (scrape_static ALLOWLIST) req)))
  /\ has_cors (fst (run env [] (serve (scrape_rendered ALLOWLIST) req))).
Proof.
  destruct (String.eqb_spec (method req) "OPTIONS") as [Hm|Hm].
  - rewrite !(serve_options _ _ Hm). cbn [run fst].
    repeat split; vm_compute; reflexivity.
  - rewrite !(serve_route _ _ Hm). split; [|split].
    + unfold proxy.
      destruct (JS.falsy _); [exact cors_res_has_cors|].
      destruct (isAllowed _ _); cbn [negb]; [|exact cors_res_has_cors].
      destruct (URL_new _ None) as [u|]; [|exact cors_res_has_cors].
      rewrite run_bind, run_await. cbv zeta.
      destruct (settle _ _) as [upstream|message]; [|exact cors_res_has_cors].
      cbn [run fst]. unfold has_cors.
      rewrite headers_pipe, headers_setHeader.
      change (JS.toLowerCase "Access-Control-Allow-Origin")
        with "access-control-allow-origin".
      split; [apply lookup_insert_eq|].
      rewrite !lookup_insert_ne by discriminate. unfold mirror.
      rewrite !(mirror_step_other upstream passthrough cors_res _ passthrough_lower);
        [split; vm_compute; reflexivity | | ];
        unfold passthrough; rewrite !elem_of_cons, elem_of_nil;
        intros Hin; repeat destruct Hin as [Hin|Hin]; discriminate || exact Hin.
    + unfold has_cors. rewrite scrape_static_headers. exact cors_res_has_cors.
    + unfold has_cors. rewrite scrape_rendered_headers. exact cors_res_has_cors.
Qed.

(** A route refuses a request before any effect: without its parameter
    with 400, with a target that the guard denies with 403. *)
Definition refuses (param : string) (route : Request -> Res -> io Res)
    (env : Env) (req : Request) : Prop :=
  let '(res, tr) := run env [] (serve route req) in
  (JS.falsy (query req !! param) = true -> statusCode res = 400 /\ tr = [])
  /\ (JS.falsy (query req !! param) = false ->
      isAllowed ALLOWLIST (default "" (query req !! param)) = false ->
      statusCode res = 403 /\ tr = []).

(** X2. Nothing is fetched for a request that is not let through: a
    preflight is answered 200 by the middleware whatever the route, and
    each of the three routes answers 400 without its parameter (missing
    or empty) and 403 for a target that the guard denies, with no
    upstream request and no browser launched. *)
Theorem no_effect_without_permission (env : Env) (req : Request) :
  (method req = "OPTIONS" ->
   forall route,
     run env [] (serve route req) = (sendStatus_200 cors_res, []))
  /\ (method req <> "OPTIONS" ->
      refuses "src" (proxy ALLOWLIST) env req
      /\ refuses "url" (scrape_static ALLOWLIST) env req
      /\ refuses "url" (scrape_rendered ALLOWLIST) env req).
Proof.
  split.
  - intros Hm route. now rewrite (serve_options _ _ Hm).
  - intros Hm. unfold refuses. rewrite !(serve_route _ _ Hm).
    unfold proxy, scrape_static, scrape_rendered.
    split; [|split].
    all: destruct (JS.falsy _) eqn:F;
      [ cbn [run]; split; [intros _; split; reflexivity | discriminate] |].
    all: destruct (isAllowed _ _) eqn:A; cbn [negb];
      [ destruct (run _ _ _) as [res tr]; split; discriminate
      | cbn [run]; split; [discriminate | intros _ _; split; reflexivity] ].
Qed.

End Middleware.

Lemma no_effect_without_permission_witness :
  run (Sample.env (Responded 200 ∅ "segment" None) [] "" "") []
      (serve (proxy (H := Sample.platform) ["example.com"])
             (Sample.get "src" "https://other.com/seg.ts" []))
  = (send "Domain not allowed" (status 403 cors_res), []).
Proof.
  destruct (@no_effect_without_permission Sample.platform ["example.com"]
              (Sample.env (Responded 200 ∅ "segment" None) [] "" "")
              (Sample.get "src" "https://other.com/seg.ts" []))
    as [_ Hget].
  destruct Hget as [Hproxy _]; [discriminate|].
  unfold refuses in Hproxy.
  destruct (run _ _ _) as [res tr] eqn:Erun.
  destruct Hproxy as [_ Hdenied].
  destruct Hdenied as [_ ->]; [reflexivity..|].
  vm_compute in Erun. injection Erun as <-. reflexivity.
Defined.

(** ** The relay, request by request *)

Section RelayMore.

Context `{Platform}.
Variable ALLOWLIST : list string.

(** X3. The relay fetches nothing but what it was asked for: a run
    performs no effect at all, or exactly one, a GET of the very string
    of the [src] parameter, which the guard allows. That request forwards
    a non-empty [Range] header of the caller as it came (and none
    otherwise), names the origin of [src] as referer, follows at most 5
    redirects and waits at most 20 seconds. *)
Theorem relay_request_shape (env : Env) (req : Request) :
  let tr := snd (run env [] (serve (proxy ALLOWLIST) req)) in
  tr = []
  \/ exists src u out config,
      tr = [event (AxiosGet src config) out]
      /\ query req !! "src" = Some src
      /\ isAllowed ALLOWLIST src = true
      /\ URL_new src None = Some u
      /\ referer config = Some (origin u)
      /\ range config
         = match req_headers req !! "range" with
           | Some r => if decide (r = "") then None else Some r
           | None => None
           end
      /\ maxRedirects config = 5
      /\ timeout config = 20000.
Proof.
  cbv zeta. unfold serve, cors.
  destruct (String.eqb (method req) "OPTIONS"); [now left|].
  unfold proxy.
  destruct (query req !! "src") as [src|] eqn:Hq; [|now left].
  destruct (JS.falsy (Some src)); [now left|]. cbn [from_option id].
  destruct (isAllowed ALLOWLIST src) eqn:Hal; cbn [negb]; [|now left].
  destruct (URL_new src None) as [u|] eqn:Hu; [|now left].
  right. rewrite run_bind, run_await. cbv zeta.
  exists src, u, (env [] _ (AxiosGet src (proxy_config req u))),
    (proxy_config req u).
  split; [destruct (settle _ _); reflexivity|].
  do 4 (split; [first [reflexivity | assumption]|]).
  split; [|split; reflexivity].
  unfold proxy_config. cbn [range].
  destruct (req_headers req !! "range") as [r|]; [|reflexivity].
  unfold or_null.
  destruct (decide (r = "")) as [->|Hr]; [reflexivity|].
  apply truthy_true in Hr. now rewrite Hr.
Qed.

(** X4. The relay copies no upstream header outside its list. A header
    that the server code has written on a response of [/proxy] is one of
    the three CORS headers of the middleware with its fixed value, or it
    has a passthrough name and the non-empty value that the upstream
    response gave to that name; any other upstream header, a cookie for
    one, stays behind. (What Express adds by itself is not modelled.) *)
Theorem relayed_headers_only (env : Env) (req : Request) (name v : string) :
  let '(res, tr) := run env [] (serve (proxy ALLOWLIST) req) in
  headers res !! name = Some v ->
  headers cors_res !! name = Some v
  \/ (name ∈ passthrough
      /\ v <> ""
      /\ exists src config s h d r,
          tr = [event (AxiosGet src config) (Responded s h d r)]
          /\ h !! name = Some v).
Proof.
  unfold serve, cors.
  destruct (String.eqb (method req) "OPTIONS"); [now left|].
  unfold proxy.
  destruct (JS.falsy _); [now left|].
  destruct (isAllowed _ _); cbn [negb]; [|now left].
  destruct (URL_new _ None) as [u|]; [|now left].
  rewrite run_bind, run_await. cbv zeta.
  destruct (env [] _ _) as [message|s h d r] eqn:Eout; [now left|].
  cbn [settle]. destruct (validateStatus _ s); [|now left].
  cbn [run]. rewrite headers_pipe, headers_setHeader.
  change (JS.toLowerCase "Access-Control-Allow-Origin")
    with "access-control-allow-origin".
  destruct (decide ("access-control-allow-origin" = name)) as [<-|Hne].
  - rewrite lookup_insert_eq. intros [= <-]. now left.
  - rewrite lookup_insert_ne by exact Hne. unfold mirror. intros E.
    apply (mirror_step_inv _ passthrough _ _ _ passthrough_lower) in E
      as [E|(Hin & Hv & Hv')]; [now left|].
    right. split; [exact Hin|]. split; [exact Hv'|].
    eexists _, _, s, h, d, r. split; [reflexivity | exact Hv].
Qed.

End RelayMore.

Lemma relayed_headers_only_witness :
  let upstream :=
    Responded 200 {[ "content-type" := "video/mp2t"; "set-cookie" := "id=1" ]}
              "segment" None in
  let res :=
    fst (run (Sample.env upstream [] "" "") []
             (serve (proxy (H := Sample.platform) [])
                    (Sample.get "src" "https://cdn.test/seg.ts" []))) in
  headers res !! "content-type" = Some "video/mp2t"
  /\ "content-type" ∈ passthrough.
Proof.
  cbv zeta.
  pose proof (@relayed_headers_only Sample.platform []
                (Sample.env
                   (Responded 200
                      {[ "content-type" := "video/mp2t"; "set-cookie" := "id=1" ]}
                      "segment" None) [] "" "")
                (Sample.get "src" "https://cdn.test/seg.ts" [])
                "content-type" "video/mp2t") as Hrun.
  destruct (run _ _ _) as [res tr] eqn:Erun.
  vm_compute in Erun. injection Erun as <- <-.
  split; [vm_compute; reflexivity|].
  destruct (Hrun ltac:(vm_compute; reflexivity)) as [Hcors|[Hin _]];
    [vm_compute in Hcors; discriminate | exact Hin].
Defined.

(** ** The discovery endpoint, request by request *)

Lemma or_else_app (a b c : string) :
  a <> "" -> JS.or_else (Some (a ++ b)) c = a ++ b.
Proof.
  destruct a as [|x a]; [contradiction|]. intros _. now rewrite app_String.
Qed.

Lemma select_best_none (urls : list string) :
  Forall (fun u => u <> "") urls ->
  select_best urls = None <-> urls = [].
Proof.
  intros Hne. rewrite select_best_unfold. split.
  - destruct (List.find priority_test urls); [discriminate|].
    destruct Hne as [|u rest Hu _]; [reflexivity|].
    apply truthy_true in Hu. now rewrite Hu.
  - now intros ->.
Qed.

Section DiscoveryMore.

Context `{Platform}.
Variable ALLOWLIST : list string.

(** X5. The rendered [/scrape] closes every browser it launched, once
    and as the last thing it does, whether the page loaded or one of its
    steps rejected; when no browser was launched (a request refused, or
    a launch that failed) there is nothing it closes. *)
Theorem browser_always_closed (env : Env) (req : Request) :
  let tr := snd (run env [] (serve (scrape_rendered ALLOWLIST) req)) in
  if existsb is_launch_ok tr
  then List.length (List.filter is_close tr) = 1%nat
       /\ is_close <$> last tr = Some true
  else List.filter is_close tr = [].
Proof.
  cbv zeta. unfold serve, cors.
  destruct (String.eqb (method req) "OPTIONS"); [reflexivity|].
  unfold scrape_rendered.
  destruct (JS.falsy _); [reflexivity|].
  destruct (isAllowed _ _); cbn [negb]; [|reflexivity].
  unfold render. repeat run_step env; cbn; auto.
Qed.

(** X6. The static [/scrape] fetches the target once, with the default
    status check of axios. A page that answers outside 200-299 gives 500
    with the message of axios for that status. A page that answers inside
    is extracted against the URL that the redirects ended at, when it is
    known, and against the target otherwise, and that URL is the [page]
    of the response; when the extractor throws the answer is 500. *)
Theorem scrape_static_outcomes (env : Env) (req : Request) (target : string)
    (s : Z) (h : gmap string string) (d : string) (r : option string) :
  method req <> "OPTIONS" ->
  query req !! "url" = Some target -> target <> "" ->
  isAllowed ALLOWLIST target = true ->
  env [] _ (AxiosGet target scrape_config) = Responded s h d r ->
  let '(res, tr) := run env [] (serve (scrape_static ALLOWLIST) req) in
  let baseUrl :=
    match r with
    | Some final => if decide (final = "") then target else final
    | None => target
    end in
  tr = [event (AxiosGet target scrape_config) (Responded s h d r)]
  /\ (~ (200 <= s < 300) ->
      statusCode res = 500
      /\ body res =
         SendJson
           (JObject [ ("ok", JBool false);
                      ("error", JString ("Request failed with status code "
                                         ++ pretty s)) ]))
  /\ (200 <= s < 300 ->
      match extractM3U8 d baseUrl with
      | Ok urls =>
          statusCode res = 200
          /\ body res =
             SendJson (scrape_ok baseUrl (extractMeta d) urls (select_best urls))
      | Thrown _ => statusCode res = 500
      end).
Proof.
  intros Hm Hq Hne Hal Hout. rewrite (serve_route _ _ Hm).
  unfold scrape_static. rewrite Hq, (falsy_false _ Hne). cbn [from_option id].
  rewrite Hal. cbn [negb]. rewrite run_bind, run_await. cbv zeta.
  rewrite Hout. cbn [settle scrape_config validateStatus].
  assert (Hbase :
    JS.or_else r target
    = match r with
      | Some final => if decide (final = "") then target else final
      | None => target
      end).
  { destruct r as [final|]; [|reflexivity]. simpl.
    destruct (decide (final = "")) as [->|Hf]; [reflexivity|].
    apply truthy_true in Hf. now rewrite Hf. }
  unfold default_validateStatus.
  destruct (Z.leb_spec 200 s), (Z.ltb_spec s 300); cbn [andb].
  2-4: cbn [run]; split; [reflexivity|]; split; [|lia]; intros _;
    split; [reflexivity|]; cbn [body send_json status];
    rewrite or_else_app by discriminate; reflexivity.
  cbn [upstream_data upstream_responseUrl]. rewrite Hbase.
  destruct (extractM3U8 _ _) as [urls|message]; cbn [run].
  - split; [reflexivity|]. split; [lia|]. intros _. now split.
  - split; [reflexivity|]. split; [lia|]. intros _. reflexivity.
Qed.

End DiscoveryMore.

Lemma scrape_static_outcomes_witness :
  let page :=
    Responded 200 ∅ Sample.page_script (Some "https://h.test/p") in
  body
    (fst (run (Sample.env page [] "" "") []
              (serve (scrape_static (H := Sample.platform) [])
                     (Sample.get "url" "https://start.test/go" []))))
  = SendJson
      (scrape_ok "https://h.test/p"
         (extractMeta (H := Sample.platform) Sample.page_script)
         ["https://h.test/a.m3u8"; "https://cdn.test/x/master.m3u8?t=1"]
         (Some "https://cdn.test/x/master.m3u8?t=1")).
Proof.
  cbv zeta.
  pose proof (@scrape_static_outcomes Sample.platform []
                (Sample.env
                   (Responded 200 ∅ Sample.page_script (Some "https://h.test/p"))
                   [] "" "")
                (Sample.get "url" "https://start.test/go" [])
                "https://start.test/go" 200 ∅ Sample.page_script
                (Some "https://h.test/p")) as Hrun.
  destruct (run _ _ _) as [res tr].
  destruct Hrun as (_ & _ & Hok);
    [discriminate | reflexivity | discriminate | reflexivity | reflexivity |].
  exact (proj2 (Hok ltac:(lia))).
Defined.

Section Answers.

Context `{Platform}.
Variable ALLOWLIST : list string.

(** X7. In the rendered variant a successful response has [best: null]
    exactly when its list of candidates is empty: a request URL that was
    recorded is never the empty string, so the selector always finds a
    first candidate to fall back on. *)
Theorem rendered_best_null_iff_empty (env : Env) (req : Request) (j : json) :
  body (fst (run env [] (serve (scrape_rendered ALLOWLIST) req))) = SendJson j ->
  field "ok" j = Some (JBool true) ->
  field "best" j = Some JNull <-> field "m3u8Urls" j = Some (JArray []).
Proof.
  unfold serve, cors.
  destruct (String.eqb (method req) "OPTIONS"); [cbn; discriminate|].
  unfold scrape_rendered.
  destruct (JS.falsy _); [cbn; intros [= <-]; discriminate|].
  destruct (isAllowed _ _); cbn [negb]; [|cbn; intros [= <-]; discriminate].
  unfold render. repeat run_step env.
  all: try (cbn; intros [= <-]; discriminate).
  intros [= <-] _. unfold JS.Array_from.
  pose proof (on_request_nonempty ((l ++ l0) ++ l1)) as Hne.
  rewrite !fold_left_app in Hne.
  set (urls := fold_left on_request l1 _) in *.
  change (Some (JString_or_null (select_best urls)) = Some JNull
          <-> Some (JArray (List.map JString urls)) = Some (JArray [])).
  pose proof (select_best_none urls Hne) as Hnone.
  split.
  - intros E. destruct (select_best urls); [discriminate E|].
    now rewrite (proj1 Hnone eq_refl).
  - intros E. destruct urls; [reflexivity | discriminate E].
Qed.

(** X8. Every answer of the server that is not a 200 tells the caller
    why, in a text that is never empty: the text body of the relay, or
    the [error] of the JSON body of [/scrape]. A fault whose own message
    is empty is reported by the fallback of the handler ([Bad gateway],
    [Fetch failed], [Puppeteer failed]). *)
Theorem failures_carry_a_message (env : Env) (req : Request) :
  let explained (res : Res) :=
    statusCode res <> 200 ->
    exists m, message_of res = Some m /\ m <> "" in
  explained (fst (run env [] (serve (proxy ALLOWLIST) req)))
  /\ explained (fst (run env [] (serve (scrape_static ALLOWLIST) req)))
  /\ explained (fst (run env [] (serve (scrape_rendered ALLOWLIST) req))).
Proof.
  cbv zeta.
  assert (Hcatch : forall message fallback,
             fallback <> "" ->
             exists m, Some (JS.or_else (Some message) fallback) = Some m
                       /\ m <> "").
  { intros message fallback Hf. eexists. split; [reflexivity|].
    now apply or_else_nonempty. }
  unfold serve, cors.
  destruct (String.eqb (method req) "OPTIONS");
    [repeat split; intros Hs; now contradiction Hs|].
  split; [|split].
  - unfold proxy.
    destruct (JS.falsy _); [intros _; now eexists|].
    destruct (isAllowed _ _); cbn [negb]; [|intros _; now eexists].
    assert (Hbad : forall message,
               exists m, Some ("Upstream error: "
                               ++ JS.or_else (Some message) "Bad gateway")
                         = Some m /\ m <> "").
    { intros message. eexists. split; [reflexivity|].
      now apply app_nonempty. }
    destruct (URL_new _ None) as [u|]; [|intros _; apply Hbad].
    rewrite run_bind, run_await. cbv zeta.
    destruct (settle _ _) as [upstream|message]; [|intros _; apply Hbad].
    cbn [run fst]. rewrite statusCode_pipe, statusCode_setHeader.
    unfold mirror.
    destruct (mirror_step_status upstream passthrough
                (setHeader "Access-Control-Allow-Methods" "GET, OPTIONS"
                   (setHeader "Access-Control-Allow-Headers"
                      "Origin, X-Requested-With, Content-Type, Accept, Range"
                      (setHeader "Access-Control-Allow-Origin" "*" new_res))))
      as [-> _].
    intros Hs. now contradiction Hs.
  - unfold scrape_static.
    destruct (JS.falsy _); [intros _; now eexists|].
    destruct (isAllowed _ _); cbn [negb]; [|intros _; now eexists].
    rewrite run_bind, run_await. cbv zeta.
    destruct (settle _ _) as [response|message];
      [|intros _; now apply Hcatch].
    destruct (extractM3U8 _ _) as [urls|message];
      [intros Hs; now contradiction Hs | intros _; now apply Hcatch].
  - unfold scrape_rendered.
    destruct (JS.falsy _); [intros _; now eexists|].
    destruct (isAllowed _ _); cbn [negb]; [|intros _; now eexists].
    unfold render. repeat run_step env.
    all: first [ intros Hs; now contradiction Hs
               | intros _; now apply Hcatch ].
Qed.

End Answers.

Lemma rendered_best_null_iff_empty_witness :
  let env := Sample.env (NetworkFault "") [ "https://cdn.test/app.js" ]
               "https://h.test/p" Sample.page_video in
  exists j,
    body (fst (run env [] (serve (scrape_rendered (H := Sample.platform) [])
                                 (Sample.get "url" "https://h.test/p" []))))
    = SendJson j
    /\ field "best" j = Some JNull.
Proof.
  cbv zeta. eexists. split; [vm_compute; reflexivity|].
  refine (proj2 (@rendered_best_null_iff_empty Sample.platform []
                   (Sample.env (NetworkFault "") [ "https://cdn.test/app.js" ]
                      "https://h.test/p" Sample.page_video)
                   (Sample.get "url" "https://h.test/p" []) _ _ _) _);
    vm_compute; reflexivity.
Defined.

Lemma failures_carry_a_message_witness :
  exists m,
    message_of
      (fst (run (Sample.env (NetworkFault "") [] "" "") []
                (serve (proxy (H := Sample.platform) [])
                       (Sample.get "src" "https://cdn.test/seg.ts" []))))
    = Some m
    /\ m <> "".
Proof.
  refine (proj1 (@failures_carry_a_message Sample.platform []
                   (Sample.env (NetworkFault "") [] "" "")
                   (Sample.get "src" "https://cdn.test/seg.ts" [])) _).
  vm_compute. discriminate.
Defined.

(** ** What the pattern captures *)

Lemma url_char_lower (c : ascii) :
  url_char (JS.lower c) = true -> url_char c = true.
Proof.
  destruct c as [[] [] [] [] [] [] [] []]; vm_compute; intros E;
    first [reflexivity | exact E].
Qed.

Lemma all_chars_app (p : ascii -> bool) (a b : string) :
  all_chars p (a ++ b) = all_chars p a && all_chars p b.
Proof.
  induction a as [|c a IH]; [reflexivity|].
  rewrite app_String. simpl. now rewrite IH, andb_assoc.
Qed.

Lemma all_chars_lower (mid : string) :
  all_chars url_char (JS.toLowerCase mid) = true ->
  all_chars url_char mid = true.
Proof.
  induction mid as [|c mid IH]; simpl; [auto|].
  rewrite !andb_true_iff. intros [Hc Hmid].
  split; [now apply url_char_lower | now apply IH].
Qed.

Lemma toLowerCase_app (a b : string) :
  JS.toLowerCase (a ++ b) = JS.toLowerCase a ++ JS.toLowerCase b.
Proof.
  induction a as [|c a IH]; [reflexivity|].
  rewrite app_String. simpl. now rewrite IH.
Qed.

Lemma toLowerCase_length (s : string) :
  String.length (JS.toLowerCase s) = String.length s.
Proof. induction s as [|c s IH]; simpl; [reflexivity | now rewrite IH]. Qed.

Lemma string_app_assoc (a b c : string) : (a ++ b) ++ c = a ++ b ++ c.
Proof.
  induction a as [|x a IH]; [reflexivity|].
  rewrite !app_String. now rewrite IH.
Qed.

Lemma string_app_nil_r (a : string) : a ++ "" = a.
Proof.
  induction a as [|x a IH]; [reflexivity|]. rewrite app_String. now rewrite IH.
Qed.

Lemma mentions_app_l (pre s tok : string) :
  mentions s tok -> mentions (pre ++ s) tok.
Proof.
  intros (a & mid & b & -> & L). exists (pre ++ a), mid, b.
  split; [now rewrite string_app_assoc | exact L].
Qed.

Lemma mentions_app_r (s post tok : string) :
  mentions s tok -> mentions (s ++ post) tok.
Proof.
  intros (a & mid & b & -> & L). exists a, mid, (b ++ post).
  split; [now rewrite !string_app_assoc | exact L].
Qed.

(** A capture, with what follows it in the text: it is made of
    characters of the class only, it has [.m3u8] in it and [http://] or
    [https://] at its start, up to case, and the class ends where it
    ends. *)
Definition capture (m post : string) : Prop :=
  all_chars url_char m = true
  /\ mentions m ".m3u8"
  /\ (exists scheme rest,
        m = scheme ++ rest
        /\ (JS.toLowerCase scheme = "http://"
            \/ JS.toLowerCase scheme = "https://"))
  /\ stops post.

Lemma run_length_split (s : string) :
  exists a b, s = a ++ b /\ String.length a = run_length s
              /\ all_chars url_char a = true /\ stops b.
Proof.
  induction s as [|c s (a & b & E & L & A & S)]; simpl.
  - now exists "", "".
  - destruct (url_char c) eqn:Hc.
    + exists (String c a), b. rewrite app_String, <- E. simpl.
      now rewrite L, Hc, A.
    + exists "", (String c s). simpl. auto.
Qed.

Lemma eat_ci_literal (pat s r : string) :
  all_chars url_char pat = true ->
  eat_ci pat s = Some r ->
  exists mid, s = mid ++ r /\ JS.toLowerCase mid = pat
              /\ all_chars url_char mid = true
              /\ String.length mid = String.length pat.
Proof.
  intros Hpat E. apply eat_ci_spec in E as (mid & -> & L).
  exists mid. split; [reflexivity|]. split; [exact L|]. split.
  - apply all_chars_lower. now rewrite L.
  - now rewrite <- L, toLowerCase_length.
Qed.

Lemma lazy_body_spec (s : string) (n : nat) :
  lazy_body s = Some n ->
  exists m post, s = m ++ post /\ String.length m = n
                 /\ all_chars url_char m = true
                 /\ mentions m ".m3u8" /\ stops post.
Proof.
  revert n. induction s as [|c s IH]; intros n; cbn [lazy_body];
    [discriminate|].
  destruct (url_char c) eqn:Hc; [|discriminate].
  destruct (eat_ci ".m3u8" s) as [rest|] eqn:E.
  - intros [= <-].
    apply (eat_ci_literal ".m3u8" s rest eq_refl) in E
      as (mid & -> & L & A & Len).
    destruct (run_length_split rest) as (a & b & -> & La & Aa & Sb).
    exists (String c (mid ++ a)), b.
    split; [now rewrite app_String, string_app_assoc|].
    split; [simpl; rewrite string_length_app, Len, La; reflexivity|].
    split; [simpl; now rewrite Hc, all_chars_app, A, Aa|].
    split; [|exact Sb].
    now exists (String c ""), mid, a.
  - destruct (lazy_body s) as [k|]; [|discriminate].
    intros [= <-]. destruct (IH k eq_refl) as (m & post & -> & Len & A & M & S).
    exists (String c m), post.
    split; [now rewrite app_String|]. split; [simpl; now rewrite Len|].
    split; [simpl; now rewrite Hc, A|]. split; [|exact S].
    now apply (mentions_app_l (String c "") m).
Qed.

Lemma match_at_spec (s : string) (n : nat) :
  match_at s = Some n ->
  exists m post, s = m ++ post /\ String.length m = n /\ capture m post.
Proof.
  unfold match_at.
  destruct (eat_ci "http" s) as [r|] eqn:E; [|discriminate].
  destruct (after_http r) as [k|] eqn:A; [|discriminate].
  intros [= <-].
  apply (eat_ci_literal "http" s r eq_refl) in E as (h & -> & Lh & Ah & Lenh).
  assert (Hrest : forall k0 j,
    match eat_ci "://" k0 with
    | Some body => option_map (Nat.add 3) (lazy_body body)
    | None => None
    end = Some j ->
    exists sep m post, k0 = sep ++ m ++ post
                       /\ JS.toLowerCase sep = "://"
                       /\ (String.length sep + String.length m = j)%nat
                       /\ all_chars url_char (sep ++ m) = true
                       /\ mentions m ".m3u8" /\ stops post).
  { intros k0 j. destruct (eat_ci "://" k0) as [body|] eqn:E; [|discriminate].
    destruct (lazy_body body) as [jj|] eqn:L; [|discriminate].
    intros [= <-].
    apply (eat_ci_literal "://" k0 body eq_refl) in E
      as (sep & -> & Ls & As & Lens).
    apply lazy_body_spec in L as (m & post & -> & Lenm & Am & M & S).
    exists sep, m, post. rewrite all_chars_app, As, Am, Lens, Lenm.
    repeat split; auto. }
  assert (Hplain : forall j,
    match eat_ci "://" r with
    | Some body => option_map (Nat.add 3) (lazy_body body)
    | None => None
    end = Some j ->
    exists m post, h ++ r = m ++ post
                   /\ String.length m = (4 + j)%nat /\ capture m post).
  { intros j Ej. apply Hrest in Ej as (sep & m & post & -> & Ls & Len & Al & M & S).
    exists (h ++ sep ++ m), post.
    split; [now rewrite !string_app_assoc|].
    split; [rewrite !string_length_app, Lenh; simpl; lia|].
    split; [now rewrite all_chars_app, Ah, Al|].
    split; [now apply mentions_app_l, mentions_app_l|].
    split; [|exact S].
    exists (h ++ sep), m. split; [now rewrite string_app_assoc|].
    left. now rewrite toLowerCase_app, Lh, Ls. }
  unfold after_http in A.
  destruct r as [|c k0]; [now apply Hplain|].
  destruct (Ascii.eqb_spec (JS.lower c) "s") as [Hc|Hc]; [|now apply Hplain].
  destruct (match eat_ci "://" k0 with
            | Some body => option_map (Nat.add 3) (lazy_body body)
            | None => None
            end) as [j|] eqn:Ej; [|now apply Hplain].
  injection A as <-.
  apply Hrest in Ej as (sep & m & post & -> & Ls & Len & Al & M & S).
  exists (h ++ String c (sep ++ m)), post.
  split; [now rewrite !string_app_assoc, !app_String, !string_app_assoc|].
  split; [rewrite string_length_app, Lenh; simpl;
          rewrite string_length_app; lia|].
  assert (Ac : url_char c = true)
    by (apply url_char_lower; rewrite Hc; reflexivity).
  split; [rewrite all_chars_app, Ah; simpl; now rewrite Ac, Al|].
  split; [apply mentions_app_l; apply (mentions_app_l (String c sep) m) in M;
          now rewrite app_String in M|].
  split; [|exact S].
  exists (h ++ String c sep), m.
  split; [now rewrite !string_app_assoc, !app_String|].
  right. rewrite toLowerCase_app, Lh. simpl. now rewrite Hc, Ls.
Qed.

Lemma search_spec (s : string) (i j n : nat) :
  search s i = Some (j, n) ->
  exists pre m post, s = pre ++ m ++ post
                     /\ (i + String.length pre = j)%nat
                     /\ String.length m = n /\ capture m post.
Proof.
  revert i. induction s as [|c s IH]; intros i; cbn [search].
  - destruct (match_at "") as [k|] eqn:M; [|discriminate].
    intros [= <- <-]. apply match_at_spec in M as (m & post & E & L & C).
    exists "", m, post. split; [exact E|]. split; [simpl; lia|]. now split.
  - destruct (match_at (String c s)) as [k|] eqn:M.
    + intros [= <- <-]. apply match_at_spec in M as (m & post & E & L & C).
      exists "", m, post. split; [exact E|]. split; [simpl; lia|]. now split.
    + intros E. apply IH in E as (pre & m & post & -> & Hj & L & C).
      exists (String c pre), m, post. rewrite app_String.
      split; [reflexivity|]. split; [simpl; lia|]. now split.
Qed.

Lemma skip_split (k : nat) (text : string) :
  (k <= String.length text)%nat ->
  exists a, text = a ++ skip k text /\ String.length a = k.
Proof.
  revert text. induction k as [|k IH]; intros text Hk.
  - exists "". now destruct text.
  - destruct text as [|c text]; simpl in Hk; [lia|].
    destruct (IH text ltac:(lia)) as (a & E & L).
    exists (String c a). rewrite app_String. simpl. now rewrite <- E, L.
Qed.

Lemma substring_prefix (d q : string) :
  substring 0 (String.length d) (d ++ q) = d.
Proof.
  induction d as [|x d IHd]; [now destruct q|].
  rewrite app_String. simpl. now rewrite IHd.
Qed.

Lemma substring_middle (p d q : string) :
  substring (String.length p) (String.length d) (p ++ d ++ q) = d.
Proof.
  induction p as [|c p IH]; [exact (substring_prefix d q)|].
  rewrite app_String. exact IH.
Qed.

(** What [exec] returns is a capture of the pattern in the text. *)
Lemma exec_spec (re re' : RegExp) (text m : string) :
  exec re text = (Some m, re') ->
  exists pre post, text = pre ++ m ++ post /\ capture m post.
Proof.
  unfold exec.
  destruct (Nat.ltb_spec (String.length text) (lastIndex re)) as [|Hle];
    [discriminate|].
  destruct (search _ _) as [[i n]|] eqn:E; [|discriminate].
  intros [= <- _].
  apply search_spec in E as (pre & m0 & post & Es & Hi & Ln & C).
  destruct (skip_split _ _ Hle) as (a & Et & La).
  assert (Etext : text = (a ++ pre) ++ m0 ++ post)
    by (rewrite string_app_assoc, <- Es; exact Et).
  assert (Hsub : substring i n text = m0).
  { rewrite Etext, <- Ln.
    replace i with (String.length (a ++ pre))
      by (rewrite string_length_app; lia).
    apply substring_middle. }
  rewrite Hsub. now exists (a ++ pre), post.
Qed.

Lemma exec_spec_all (text : string) :
  forall r m r', exec r text = (Some m, r') ->
                 exists pre post, text = pre ++ m ++ post /\ capture m post.
Proof. intros r m r'. apply exec_spec. Qed.

(** The loop with any body visits the captures that the loop which
    collects them returns, in order. *)
Lemma while_exec_collect (fuel : nat) (re : RegExp) (text : string)
    (l : list string) :
  while_exec fuel re text (fun m l => (l ++ [m])%list) l
  = (fun '(ms, r) => ((l ++ ms)%list, r))
      <$> while_exec fuel re text (fun m l => (l ++ [m])%list) [].
Proof.
  revert re l. induction fuel as [|fuel IH]; intros re l; [reflexivity|].
  simpl. destruct (exec re text) as [[m|] re'].
  - rewrite (IH re' (l ++ [m])%list), (IH re' [m]).
    destruct (while_exec fuel re' text _ []) as [[ms r]|]; [|reflexivity].
    simpl. now rewrite <- List.app_assoc.
  - simpl. now rewrite List.app_nil_r.
Qed.

Lemma while_exec_fold {St : Type} (body : string -> St -> St) (fuel : nat)
    (re : RegExp) (text : string) (st : St) :
  while_exec fuel re text body st
  = (fun '(ms, r) => (fold_left (fun s m => body m s) ms st, r))
      <$> while_exec fuel re text (fun m l => (l ++ [m])%list) [].
Proof.
  revert re st. induction fuel as [|fuel IH]; intros re st; [reflexivity|].
  simpl. destruct (exec re text) as [[m|] re']; [|reflexivity].
  rewrite IH, (while_exec_collect fuel re' text [m]).
  destruct (while_exec fuel re' text _ []) as [[ms r]|]; reflexivity.
Qed.

Lemma scan_fold {St : Type} (body : string -> St -> St) (text : string)
    (st : St) :
  scan text body st = fold_left (fun s m => body m s) (matches text) st.
Proof.
  unfold matches, scan. rewrite (while_exec_fold body).
  destruct (while_exec _ fresh text _ []) as [[ms r]|]; reflexivity.
Qed.

Lemma while_exec_captures (fuel : nat) (re re' : RegExp) (text : string)
    (l l' : list string) (Q : string -> Prop) :
  (forall r m r', exec r text = (Some m, r') -> Q m) ->
  while_exec fuel re text (fun m l => (l ++ [m])%list) l = Some (l', re') ->
  Forall Q l -> Forall Q l'.
Proof.
  intros Hexec. revert re l.
  induction fuel as [|fuel IH]; intros re l; [discriminate|].
  simpl. destruct (exec re text) as [[m|] r] eqn:E.
  - intros W Hl. apply (IH _ _ W). apply Forall_app. split; [exact Hl|].
    constructor; [now apply (Hexec _ _ _ E) | constructor].
  - now intros [= <- _].
Qed.

(** X9. A string that the loop of the extractor visits in a text is a
    piece of that text which starts with [http://] or [https://] and has
    [.m3u8] in it, both up to case, and which holds no white space, quote
    or backslash; it ends where the text ends or where such a character
    comes. *)
Theorem pattern_matches_sound (text m : string) :
  m ∈ matches text ->
  exists pre post,
    text = pre ++ m ++ post
    /\ all_chars url_char m = true
    /\ mentions m ".m3u8"
    /\ (exists scheme rest,
          m = scheme ++ rest
          /\ (JS.toLowerCase scheme = "http://"
              \/ JS.toLowerCase scheme = "https://"))
    /\ stops post.
Proof.
  intros Hm.
  assert (Hall : Forall (fun m => exists pre post,
                           text = pre ++ m ++ post /\ capture m post)
                        (matches text)).
  { unfold matches.
    pose proof (scan_completes (fun m l => (l ++ [m])%list) text []) as W.
    apply (while_exec_captures _ _ _ _ _ _ _ (exec_spec_all text) W).
    constructor. }
  rewrite Forall_forall in Hall.
  destruct (Hall m Hm) as (pre & post & E & C1 & C2 & C3 & C4).
  now exists pre, post.
Qed.

Lemma pattern_matches_sound_witness :
  exists pre post,
    "src='HTTPS://cdn.test/a.M3U8?k=1' alt"
    = pre ++ "HTTPS://cdn.test/a.M3U8?k=1" ++ post
    /\ all_chars url_char "HTTPS://cdn.test/a.M3U8?k=1" = true
    /\ mentions "HTTPS://cdn.test/a.M3U8?k=1" ".m3u8"
    /\ (exists scheme rest,
          "HTTPS://cdn.test/a.M3U8?k=1" = scheme ++ rest
          /\ (JS.toLowerCase scheme = "http://"
              \/ JS.toLowerCase scheme = "https://"))
    /\ stops post.
Proof.
  apply (pattern_matches_sound "src='HTTPS://cdn.test/a.M3U8?k=1' alt"
           "HTTPS://cdn.test/a.M3U8?k=1").
  vm_compute. apply list_elem_of_here.
Defined.

(** ** Where the candidates come from *)

Lemma or_else_self (s : string) : JS.or_else (Some s) "" = s.
Proof. now destruct s. Qed.

Section Candidates.

Context `{Platform}.

(** [input] is an address that the extractor reads in the page: the
    [src] or [href] of a selected element, or a capture of the pattern in
    a script or in the text of the page. *)
Definition read_in (html input : string) : Prop :=
  (exists el, el ∈ Dom.select media_selector (cheerio_load html)
              /\ src_or_href el = Some input)
  \/ (exists el, el ∈ Dom.select script_selector (cheerio_load html)
                 /\ input ∈ matches (Dom.html el))
  \/ input ∈ matches html.

(** [u] is what an address read in the page resolves to. *)
Definition resolved_from (html baseUrl u : string) : Prop :=
  exists input url,
    read_in html input
    /\ URL_new input (Some baseUrl) = Some url
    /\ href url = u.

Lemma try_add_resolved (html baseUrl input : string) (c : JS.StringSet) :
  read_in html input ->
  Forall (resolved_from html baseUrl) c ->
  Forall (resolved_from html baseUrl) (try_add baseUrl input c).
Proof.
  intros Hin Hc. unfold try_add.
  destruct (URL_new input (Some baseUrl)) as [url|] eqn:E; [|exact Hc].
  unfold JS.add. destruct (JS.has _ c); [exact Hc|].
  apply Forall_app. split; [exact Hc|].
  constructor; [now exists input, url | constructor].
Qed.

Lemma fold_matches_resolved (html baseUrl text : string) (c : JS.StringSet) :
  (forall m, m ∈ matches text -> read_in html m) ->
  Forall (resolved_from html baseUrl) c ->
  Forall (resolved_from html baseUrl) (scan text (try_add baseUrl) c).
Proof.
  rewrite scan_fold. generalize (matches text). intros ms. revert c.
  induction ms as [|m ms IH]; intros c Hms Hc; simpl; [exact Hc|].
  apply IH.
  - intros x Hx. apply Hms. now apply list_elem_of_further.
  - apply try_add_resolved; [|exact Hc]. apply Hms, list_elem_of_here.
Qed.

(** X10. The extractor invents no candidate: every string of the list
    that it returns is the [href] of an address that it read in the page
    (the [src] or [href] of a selected element, or a capture of the
    pattern in a script or in the raw text), resolved against the base
    URL. *)
Theorem candidates_are_resolved (html baseUrl : string) (l : list string)
    (u : string) :
  extractM3U8 html baseUrl = Ok l ->
  u ∈ l ->
  exists input url,
    read_in html input
    /\ URL_new input (Some baseUrl) = Some url
    /\ href url = u.
Proof.
  intros E Hu. revert u Hu. apply Forall_forall.
  change (Forall (resolved_from html baseUrl) l).
  unfold extractM3U8 in E.
  assert (Hmedia : forall els c c',
             (forall el, el ∈ els ->
                         el ∈ Dom.select media_selector (cheerio_load html)) ->
             each_media els baseUrl c = Ok c' ->
             Forall (resolved_from html baseUrl) c ->
             Forall (resolved_from html baseUrl) c').
  { induction els as [|el els IH]; intros c c' Hels; simpl.
    - now intros [= ->].
    - assert (Hrest : forall x, x ∈ els ->
                x ∈ Dom.select media_selector (cheerio_load html))
        by (intros x Hx; apply Hels; now apply list_elem_of_further).
      destruct (src_or_href el) as [src|] eqn:Hsrc; [|now apply IH].
      destruct (JS.truthy src); [|now apply IH].
      destruct (URL_new src (Some baseUrl)) as [url|] eqn:Hurl; [|discriminate].
      intros E' Hc. apply (IH _ _ Hrest E').
      unfold JS.add. destruct (JS.has _ c); [exact Hc|].
      apply Forall_app. split; [exact Hc|].
      constructor; [|constructor]. exists src, url.
      split; [|now split]. left. exists el.
      split; [apply Hels, list_elem_of_here | exact Hsrc]. }
  assert (Hscripts : forall els c,
             (forall el, el ∈ els ->
                         el ∈ Dom.select script_selector (cheerio_load html)) ->
             Forall (resolved_from html baseUrl) c ->
             Forall (resolved_from html baseUrl) (each_script els baseUrl c)).
  { unfold each_script.
    induction els as [|el els IH]; intros c Hels Hc; cbn [fold_left];
      [exact Hc|].
    apply IH; [intros x Hx; apply Hels; now apply list_elem_of_further|].
    rewrite or_else_self. apply fold_matches_resolved; [|exact Hc].
    intros m Hm. right. left. exists el.
    split; [apply Hels, list_elem_of_here | exact Hm]. }
  destruct (each_media _ baseUrl []) as [c1|] eqn:E1; [|discriminate].
  injection E as <-. unfold JS.Array_from.
  apply fold_matches_resolved; [intros m Hm; right; now right|].
  apply Hscripts; [auto|].
  apply (Hmedia _ _ _ (fun el Hel => Hel) E1). constructor.
Qed.

Lemma each_media_thrown (els : list Dom.Node) (baseUrl : string)
    (c : JS.StringSet) (e : string) :
  each_media els baseUrl c = Thrown e
  <-> e = invalid_url
      /\ exists el src, el ∈ els /\ src_or_href el = Some src
                        /\ src <> "" /\ URL_new src (Some baseUrl) = None.
Proof.
  revert c. induction els as [|el els IH]; intros c; simpl.
  - split; [discriminate|]. intros (_ & el & src & Hel & _).
    now apply elem_of_nil in Hel.
  - assert (Hskip : (forall src, src_or_href el = Some src -> src <> "" ->
                       URL_new src (Some baseUrl) <> None) ->
             forall c0, each_media els baseUrl c0 = Thrown e
             <-> e = invalid_url
                 /\ exists el0 src, el0 ∈ el :: els
                      /\ src_or_href el0 = Some src
                      /\ src <> "" /\ URL_new src (Some baseUrl) = None).
    { intros Hok c0. rewrite IH. split.
      - intros (He & x & src & Hx & Hrest). split; [exact He|].
        exists x, src. split; [now apply list_elem_of_further | exact Hrest].
      - intros (He & x & src & Hx & Hsrc & Hne & Hu). split; [exact He|].
        apply elem_of_cons in Hx as [->|Hx]; [|now exists x, src].
        now destruct (Hok src Hsrc Hne). }
    destruct (src_or_href el) as [src|] eqn:Hsrc;
      [|apply Hskip; discriminate].
    destruct (JS.truthy src) eqn:T.
    + destruct (URL_new src (Some baseUrl)) as [url|] eqn:Hu.
      * apply Hskip. intros s [= <-] _. congruence.
      * split.
        -- intros [= He]. split; [now symmetry|]. exists el, src.
           split; [apply list_elem_of_here|]. split; [exact Hsrc|].
           split; [now apply truthy_true | exact Hu].
        -- intros (He & _). now rewrite He.
    + apply Hskip. intros s [= <-] Hne. apply truthy_true in Hne. congruence.
Qed.

(** X11. The extractor throws for exactly one reason: one of the selected
    elements has a non-empty [src] (or, without it, [href]) that
    [new URL] refuses against the base URL; what it throws is the error
    of [new URL]. Nothing that the script pass or the raw-text pass reads
    makes it throw. *)
Theorem extractM3U8_throws_iff (html baseUrl e : string) :
  extractM3U8 html baseUrl = Thrown e
  <-> e = invalid_url
      /\ exists el src,
          el ∈ Dom.select media_selector (cheerio_load html)
          /\ src_or_href el = Some src
          /\ src <> ""
          /\ URL_new src (Some baseUrl) = None.
Proof.
  rewrite <- (each_media_thrown _ baseUrl []). unfold extractM3U8.
  destruct (each_media _ baseUrl []) as [c1|e1]; split;
    first [discriminate | now intros [= ->]].
Qed.

(** X12. The passes only append: the candidates of the DOM pass are the
    first of the result, in the order in which that pass found them,
    those that the script pass added come next, and those of the raw-text
    pass last. *)
Theorem extraction_order (html baseUrl : string) (l : list string) :
  extractM3U8 html baseUrl = Ok l ->
  exists c1 c2,
    each_media (Dom.select media_selector (cheerio_load html)) baseUrl []
    = Ok c1
    /\ c2 = each_script (Dom.select script_selector (cheerio_load html))
                        baseUrl c1
    /\ c1 `prefix_of` c2
    /\ c2 `prefix_of` l.
Proof.
  unfold extractM3U8.
  destruct (each_media _ baseUrl []) as [c1|] eqn:E; [|discriminate].
  intros [= <-]. eexists c1, _.
  split; [reflexivity|]. split; [reflexivity|].
  assert (Htry : forall c0 m c, c0 `prefix_of` c ->
                                c0 `prefix_of` try_add baseUrl m c).
  { intros c0 m c Hc. unfold try_add.
    destruct (URL_new m (Some baseUrl)); [|exact Hc].
    etransitivity; [exact Hc | apply add_prefix]. }
  split.
  - generalize (Dom.select script_selector (cheerio_load html)).
    intros els. unfold each_script.
    assert (Hgen : forall c, c1 `prefix_of` c ->
               c1 `prefix_of`
                 fold_left
                   (fun c0 el =>
                      scan (JS.or_else (Some (Dom.html el)) "")
                           (try_add baseUrl) c0) els c).
    { induction els as [|el els IH]; intros c Hc; simpl; [exact Hc|].
      apply IH. apply scan_invariant; [apply Htry | exact Hc]. }
    now apply Hgen.
  - unfold JS.Array_from. apply scan_invariant; [apply Htry | reflexivity].
Qed.

End Candidates.

Lemma candidates_are_resolved_witness :
  exists input url,
    read_in (H := Sample.platform) Sample.page_script input
    /\ URL_new (Platform := Sample.platform) input (Some "https://h.test/p")
       = Some url
    /\ href url = "https://h.test/a.m3u8".
Proof.
  apply (@candidates_are_resolved Sample.platform Sample.page_script
           "https://h.test/p"
           ["https://h.test/a.m3u8"; "https://cdn.test/x/master.m3u8?t=1"]).
  - vm_compute. reflexivity.
  - apply list_elem_of_here.
Defined.

Lemma extraction_order_witness :
  exists c1 c2,
    each_media (H := Sample.platform)
      (Dom.select media_selector (Sample.cheerio_load Sample.page_script))
      "https://h.test/p" []
    = Ok c1
    /\ c2 = each_script (H := Sample.platform)
              (Dom.select script_selector (Sample.cheerio_load Sample.page_script))
              "https://h.test/p" c1
    /\ c1 `prefix_of` c2
    /\ c2 `prefix_of`
         ["https://h.test/a.m3u8"; "https://cdn.test/x/master.m3u8?t=1"].
Proof.
  apply (@extraction_order Sample.platform Sample.page_script "https://h.test/p").
  vm_compute. reflexivity.
Defined.

(** ** The metadata and the configuration *)

Lemma trimStart_head (s : string) :
  JS.trimStart s = ""
  \/ exists c r, JS.trimStart s = String c r /\ JS.is_space c = false.
Proof.
  induction s as [|c s IH]; simpl; [now left|].
  destruct (JS.is_space c) eqn:Hc; [exact IH|]. right. now exists c, s.
Qed.

Lemma trimEnd_idem (s : string) : JS.trimEnd (JS.trimEnd s) = JS.trimEnd s.
Proof.
  induction s as [|c s IH]; [reflexivity|]. cbn [JS.trimEnd].
  destruct (JS.trimEnd s) as [|d r] eqn:E.
  - destruct (JS.is_space c) eqn:Hc; [reflexivity|].
    cbn [JS.trimEnd]. now rewrite Hc.
  - cbn [JS.trimEnd] in *. now rewrite IH.
Qed.

Lemma trimEnd_head (c : ascii) (r : string) :
  JS.is_space c = false -> exists r', JS.trimEnd (String c r) = String c r'.
Proof.
  intros Hc. cbn [JS.trimEnd].
  destruct (JS.trimEnd r) as [|d r']; [rewrite Hc|]; eauto.
Qed.

(** What [trim] returns has no white space left to trim. *)
Lemma trim_idem (s : string) : JS.trim (JS.trim s) = JS.trim s.
Proof.
  unfold JS.trim.
  destruct (trimStart_head s) as [->|(c & r & -> & Hc)]; [reflexivity|].
  destruct (trimEnd_head c r Hc) as [r' E].
  rewrite E. cbn [JS.trimStart]. rewrite Hc, <- E. apply trimEnd_idem.
Qed.

Lemma or_null_some (v : option string) (s : string) :
  or_null v = Some s -> v = Some s /\ s <> "".
Proof.
  destruct v as [t|]; simpl; [|discriminate].
  destruct (JS.truthy t) eqn:T; [|discriminate].
  intros [= <-]. split; [reflexivity | now apply truthy_true].
Qed.

Lemma filter_none {A : Type} (f : A -> bool) (l : list A) :
  (forall x, x ∈ l -> f x = false) -> List.filter f l = [].
Proof.
  induction l as [|a l IH]; intros Hl; simpl; [reflexivity|].
  rewrite (Hl a) by apply list_elem_of_here.
  apply IH. intros x Hx. apply Hl. now apply list_elem_of_further.
Qed.

Section Metadata.

Context `{Platform}.

(** X13. No field of the metadata is ever the empty string: a field is
    [null] or a non-empty string, and a title comes without white space
    around it (a title of white space only is [null]). A page without a
    [title] element and without a [meta] element has the four fields
    [null]. *)
Theorem extractMeta_fields (html : string) :
  let meta := extractMeta html in
  (forall t, title meta = Some t -> t <> "" /\ JS.trim t = t)
  /\ (forall v, ogTitle meta = Some v -> v <> "")
  /\ (forall v, ogVideo meta = Some v -> v <> "")
  /\ (forall v, ogDescription meta = Some v -> v <> "")
  /\ ((forall n, n ∈ Dom.all_elements (cheerio_load html) ->
                 Dom.tag n <> "title" /\ Dom.tag n <> "meta") ->
      meta = {| title := None; ogTitle := None; ogVideo := None;
                ogDescription := None |}).
Proof.
  cbv zeta. unfold extractMeta. cbn [title ogTitle ogVideo ogDescription].
  split; [|split; [|split; [|split]]].
  - intros t E. apply or_null_some in E as [[= <-] Hne].
    split; [exact Hne | apply trim_idem].
  - intros v E. now apply or_null_some in E.
  - intros v E. now apply or_null_some in E.
  - intros v E. now apply or_null_some in E.
  - intros Hnone.
    assert (Hmeta : forall p, meta_content (cheerio_load html) p = None).
    { intros p. unfold meta_content, Dom.select. rewrite filter_none; [reflexivity|].
      intros n Hn. unfold Dom.attr_equals.
      destruct (String.eqb_spec (Dom.tag n) "meta") as [E|]; [|reflexivity].
      now destruct (Hnone n Hn) as [_ Hm]. }
    unfold Dom.select at 1. rewrite filter_none, !Hmeta; [reflexivity|].
    intros n Hn. destruct (String.eqb_spec (Dom.tag n) "title") as [E|];
      [|reflexivity].
    now destruct (Hnone n Hn) as [Ht _].
Qed.

End Metadata.

Lemma extractMeta_fields_witness :
  extractMeta (H := Sample.platform) Sample.page_video
  = {| title := None; ogTitle := None; ogVideo := None; ogDescription := None |}.
Proof.
  refine (proj2 (proj2 (proj2 (proj2
            (@extractMeta_fields Sample.platform Sample.page_video)))) _).
  intros n Hn. vm_compute in Hn.
  repeat (apply elem_of_cons in Hn as [->|Hn]; [split; discriminate|]).
  now apply elem_of_nil in Hn.
Defined.

Lemma split_comma_length (s : string) :
  List.length (JS.split_comma s) = S (count_commas s).
Proof.
  induction s as [|c s IH]; [reflexivity|]. simpl.
  destruct (Ascii.eqb c ","); simpl; [now rewrite IH|].
  destruct (JS.split_comma s); simpl in *; congruence.
Qed.

(** X14. An allowlist read from the environment has one entry more than
    the value has commas, so it is empty only when the variable is not
    set: a variable set to the empty string gives one empty entry. No
    entry has white space around it, whatever was written around the
    commas. *)
Theorem ALLOWLIST_of_env_entries (v : option string) :
  (ALLOWLIST_of_env v = [] <-> v = None)
  /\ (forall s, v = Some s ->
                List.length (ALLOWLIST_of_env v) = S (count_commas s))
  /\ (forall d, d ∈ ALLOWLIST_of_env v -> JS.trim d = d).
Proof.
  split; [|split].
  - destruct v as [s|]; simpl; [|tauto]. split; [|discriminate].
    intros E. apply (f_equal (@List.length _)) in E.
    rewrite List.length_map, split_comma_length in E. discriminate.
  - intros s ->. simpl. now rewrite List.length_map, split_comma_length.
  - destruct v as [s|]; simpl; [|intros d Hd; now apply elem_of_nil in Hd].
    intros d Hd. apply list_elem_of_In, List.in_map_iff in Hd as (x & <- & _).
    apply trim_idem.
Qed.

Lemma ALLOWLIST_of_env_entries_witness :
  List.length (ALLOWLIST_of_env (Some " example.com , cdn.test")) = 2%nat
  /\ JS.trim "example.com" = "example.com".
Proof.
  destruct (ALLOWLIST_of_env_entries (Some " example.com , cdn.test"))
    as (_ & Hlen & Htrim).
  split; [exact (Hlen _ eq_refl)|].
  apply Htrim. vm_compute. apply list_elem_of_here.
Defined.

Section RenderedMore.

Context `{Platform}.
Variable ALLOWLIST : list string.

(** X15. The rendered [/scrape] sends the page nowhere but to its
    target: in a run the page is navigated at most once, to the very
    string of the [url] parameter, which the guard allows; and that
    variant sends no request of its own through axios. *)
Theorem rendered_navigates_target_only (env : Env) (req : Request) :
  let tr := snd (run env [] (serve (scrape_rendered ALLOWLIST) req)) in
  upstream_gets tr = 0%nat
  /\ (flat_map goto_of tr = []
      \/ exists target,
          flat_map goto_of tr = [target]
          /\ query req !! "url" = Some target
          /\ isAllowed ALLOWLIST target = true).
Proof.
  cbv zeta. unfold serve, cors.
  destruct (String.eqb (method req) "OPTIONS"); [now split; [|left]|].
  unfold scrape_rendered.
  destruct (query req !! "url") as [target|] eqn:Hq; [|now split; [|left]].
  destruct (JS.falsy (Some target)); [now split; [|left]|]. cbn [from_option id].
  destruct (isAllowed ALLOWLIST target) eqn:Hal; cbn [negb];
    [|now split; [|left]].
  unfold render. repeat run_step env.
  all: split; [reflexivity|].
  all: first [ now left | right; now exists target ].
Qed.

End RenderedMore.

(** ** The guard, entry by entry *)

Section GuardMore.

Context `{Platform}.

(** X16. A URL whose hostname is an entry of the allowlist is allowed,
    and entries added to an allowlist that is not empty take nothing
    back: what was allowed stays allowed, wherever the new entries are
    put. *)
Theorem isAllowed_widens (allowlist more : list string) (urlStr : string) :
  (forall u, URL_new urlStr None = Some u -> hostname u ∈ allowlist ->
             isAllowed allowlist urlStr = true)
  /\ (allowlist <> [] ->
      isAllowed allowlist urlStr = true ->
      isAllowed (allowlist ++ more) urlStr = true
      /\ isAllowed (more ++ allowlist) urlStr = true).
Proof.
  split.
  - intros u Hu Hin. unfold isAllowed. rewrite Hu.
    destruct (List.length allowlist =? 0)%nat; [reflexivity|].
    apply existsb_exists. exists (hostname u).
    split; [now apply list_elem_of_In|]. apply endsWith_spec. now exists "".
  - intros Hne. unfold isAllowed.
    destruct (URL_new urlStr None) as [u|]; [|discriminate].
    destruct allowlist as [|d rest]; [contradiction|].
    cbn [List.length Nat.eqb]. intros E.
    apply existsb_exists in E as (x & Hx & Ex).
    assert (Hex : forall l, In x l ->
              (if (List.length l =? 0)%nat then true
               else existsb (fun d => JS.endsWith (hostname u) d) l) = true).
    { intros l Hl. destruct (List.length l =? 0)%nat; [reflexivity|].
      apply existsb_exists. now exists x. }
    split; apply Hex, List.in_or_app; auto.
Qed.

End GuardMore.

Lemma isAllowed_widens_witness :
  isAllowed (H := Sample.platform) (["example.com"] ++ ["cdn.test"])
    "https://sub.example.com/x" = true.
Proof.
  refine (proj1 (proj2 (@isAllowed_widens Sample.platform ["example.com"]
                          ["cdn.test"] "https://sub.example.com/x") _ _)).
  - discriminate.
  - reflexivity.
Defined.

(** ** What the pattern does not miss *)

Lemma run_length_full (x post : string) :
  all_chars url_char x = true -> stops post ->
  run_length (x ++ post) = String.length x.
Proof.
  intros Hx Hpost. induction x as [|c x IH].
  - destruct post as [|c post]; [reflexivity|]. simpl in *. now rewrite Hpost.
  - rewrite app_String. simpl in *. apply andb_true_iff in Hx as [Hc Hx].
    now rewrite Hc, IH.
Qed.

Lemma app_eq_split (y post m rest : string) :
  y ++ post = m ++ rest -> (String.length m <= String.length y)%nat ->
  exists x, y = m ++ x /\ rest = x ++ post.
Proof.
  revert y. induction m as [|c m IH]; intros y E Hlen.
  - exists y. split; [reflexivity | now symmetry].
  - destruct y as [|d y]; [simpl in Hlen; lia|].
    rewrite !app_String in E. injection E as -> E.
    destruct (IH y E) as (x & -> & ->); [simpl in Hlen; lia|].
    now exists x.
Qed.

Lemma lazy_body_complete (a mid b post : string) :
  a <> "" -> JS.toLowerCase mid = ".m3u8" ->
  all_chars url_char (a ++ mid ++ b) = true -> stops post ->
  lazy_body (a ++ mid ++ b ++ post) = Some (String.length (a ++ mid ++ b)).
Proof.
  intros Ha Hmid. revert Ha.
  induction a as [|c a IH]; intros Ha Hall Hpost; [contradiction|].
  rewrite !app_String in *. cbn [lazy_body all_chars String.length] in *.
  apply andb_true_iff in Hall as [Hc Hall]. rewrite Hc.
  destruct (eat_ci ".m3u8" (a ++ mid ++ b ++ post)) as [rest|] eqn:E.
  - apply eat_ci_spec in E as (m5 & E & L5).
    assert (Len5 : String.length m5 = 5%nat)
      by (rewrite <- (toLowerCase_length m5), L5; reflexivity).
    assert (Lenmid : String.length mid = 5%nat)
      by (rewrite <- (toLowerCase_length mid), Hmid; reflexivity).
    destruct (app_eq_split (a ++ mid ++ b) post m5 rest) as (x & Ey & ->).
    + now rewrite !string_app_assoc.
    + rewrite !string_length_app. lia.
    + rewrite Ey in Hall. rewrite all_chars_app in Hall.
      apply andb_true_iff in Hall as [_ Hx].
      rewrite (run_length_full x post Hx Hpost), Ey, string_length_app, Len5.
      reflexivity.
  - destruct a as [|d a].
    + exfalso. assert (E' : eat_ci ".m3u8" ("" ++ mid ++ b ++ post)
                            = Some (b ++ post))
        by (apply eat_ci_spec; now exists mid).
      rewrite E' in E. discriminate.
    + rewrite IH; [reflexivity | discriminate | exact Hall | exact Hpost].
Qed.

Lemma lower_string_cons (s : string) (p : ascii) (pat : string) :
  JS.toLowerCase s = String p pat ->
  exists c s', s = String c s' /\ JS.lower c = p /\ JS.toLowerCase s' = pat.
Proof.
  destruct s as [|c s']; simpl; [discriminate|].
  intros [= Hc Hs]. now exists c, s'.
Qed.

Lemma eat_ci_prefix (pre rest : string) :
  eat_ci (JS.toLowerCase pre) (pre ++ rest) = Some rest.
Proof. apply eat_ci_spec. now exists pre. Qed.

Lemma after_http_plain (sep body : string) (n : nat) :
  JS.toLowerCase sep = "://" -> lazy_body body = Some n ->
  after_http (sep ++ body) = Some (3 + n)%nat.
Proof.
  intros Hsep Hlazy. pose proof Hsep as Hs.
  apply lower_string_cons in Hs as (c & s' & -> & Hc & _).
  unfold after_http. rewrite app_String, Hc. cbn [Ascii.eqb Bool.eqb].
  rewrite <- app_String, <- Hsep, eat_ci_prefix, Hlazy. reflexivity.
Qed.

Lemma after_http_s (c : ascii) (sep body : string) (n : nat) :
  JS.lower c = "s"%char -> JS.toLowerCase sep = "://" ->
  lazy_body body = Some n ->
  after_http (String c (sep ++ body)) = Some (S (3 + n)).
Proof.
  intros Hc Hsep Hlazy. unfold after_http. rewrite Hc.
  cbn [Ascii.eqb Bool.eqb]. rewrite <- Hsep, eat_ci_prefix, Hlazy. reflexivity.
Qed.

Lemma match_at_complete (scheme a mid b post : string) :
  JS.toLowerCase scheme = "http://" \/ JS.toLowerCase scheme = "https://" ->
  a <> "" -> JS.toLowerCase mid = ".m3u8" ->
  all_chars url_char (a ++ mid ++ b) = true -> stops post ->
  match_at (scheme ++ a ++ mid ++ b ++ post)
  = Some (String.length (scheme ++ a ++ mid ++ b)).
Proof.
  intros Hscheme Ha Hmid Hall Hpost.
  pose proof (lazy_body_complete a mid b post Ha Hmid Hall Hpost) as Hlazy.
  rewrite string_length_app.
  set (body := a ++ mid ++ b ++ post) in *.
  set (n := String.length (a ++ mid ++ b)) in *.
  assert (Hhttp : forall h r, JS.toLowerCase h = "http" ->
             match_at (h ++ r) = option_map (Nat.add 4) (after_http r)).
  { intros h r Hh. unfold match_at. now rewrite <- Hh, eat_ci_prefix. }
  destruct Hscheme as [Hs|Hs].
  - assert (Hlen : String.length scheme = 7%nat)
      by (rewrite <- toLowerCase_length, Hs; reflexivity).
    rewrite Hlen.
    apply lower_string_cons in Hs as (c1 & s1 & -> & H1 & Hs).
    apply lower_string_cons in Hs as (c2 & s2 & -> & H2 & Hs).
    apply lower_string_cons in Hs as (c3 & s3 & -> & H3 & Hs).
    apply lower_string_cons in Hs as (c4 & sep & -> & H4 & Hs).
    change (String c1 (String c2 (String c3 (String c4 sep))) ++ body)
      with (String c1 (String c2 (String c3 (String c4 ""))) ++ sep ++ body).
    rewrite Hhttp by (simpl; now rewrite H1, H2, H3, H4).
    now rewrite (after_http_plain sep body n Hs Hlazy).
  - assert (Hlen : String.length scheme = 8%nat)
      by (rewrite <- toLowerCase_length, Hs; reflexivity).
    rewrite Hlen.
    apply lower_string_cons in Hs as (c1 & s1 & -> & H1 & Hs).
    apply lower_string_cons in Hs as (c2 & s2 & -> & H2 & Hs).
    apply lower_string_cons in Hs as (c3 & s3 & -> & H3 & Hs).
    apply lower_string_cons in Hs as (c4 & s4 & -> & H4 & Hs).
    apply lower_string_cons in Hs as (c5 & sep & -> & H5 & Hs).
    change (String c1 (String c2 (String c3 (String c4 (String c5 sep)))) ++ body)
      with (String c1 (String c2 (String c3 (String c4 "")))
              ++ String c5 (sep ++ body)).
    rewrite Hhttp by (simpl; now rewrite H1, H2, H3, H4).
    now rewrite (after_http_s c5 sep body n H5 Hs Hlazy).
Qed.

(** X17. The pattern does not miss a manifest URL that starts a text: a
    string made of [http://] or [https://] (in any case), at least one
    character, [.m3u8] (in any case) and any tail, all without white
    space, quote or backslash, is captured whole when the text ends after
    it or goes on with such a character; it is the first capture of the
    loop. *)
Theorem pattern_captures_url (scheme a mid b post : string) :
  JS.toLowerCase scheme = "http://" \/ JS.toLowerCase scheme = "https://" ->
  a <> "" -> JS.toLowerCase mid = ".m3u8" ->
  all_chars url_char (a ++ mid ++ b) = true -> stops post ->
  exists rest,
    matches ((scheme ++ a ++ mid ++ b) ++ post)
    = (scheme ++ a ++ mid ++ b) :: rest.
Proof.
  intros Hscheme Ha Hmid Hall Hpost.
  pose proof (match_at_complete scheme a mid b post Hscheme Ha Hmid Hall Hpost)
    as Hmatch.
  set (url := scheme ++ a ++ mid ++ b) in *.
  assert (Etext : url ++ post = scheme ++ a ++ mid ++ b ++ post)
    by (unfold url; now rewrite !string_app_assoc).
  rewrite <- Etext in Hmatch. set (text := url ++ post) in *.
  assert (Hexec : exec fresh text
                  = (Some url, {| lastIndex := String.length url |})).
  { unfold exec, fresh. cbn [lastIndex skip].
    destruct (Nat.ltb_spec (String.length text) 0) as [|_]; [lia|].
    assert (Hsearch : search text 0 = Some (0%nat, String.length url))
      by (destruct text; cbn [search]; now rewrite Hmatch).
    rewrite Hsearch. unfold text at 1. now rewrite substring_prefix. }
  assert (Hurl : (1 <= String.length url)%nat)
    by (apply match_at_bounds in Hmatch; lia).
  unfold matches, scan. cbn [while_exec]. rewrite Hexec, while_exec_collect.
  destruct (while_exec_enough (fun _ => True) (fun m l => (l ++ [m])%list)
              text (String.length text) {| lastIndex := String.length url |} [])
    as (ms & -> & _); [cbn [lastIndex]; unfold text in *;
                       rewrite string_length_app in *; lia | auto | auto |].
  now exists ms.
Qed.

Lemma pattern_captures_url_witness :
  exists rest,
    matches (("https://" ++ "cdn.test/x/master" ++ ".m3u8" ++ "?t=1") ++ "';")
    = ("https://" ++ "cdn.test/x/master" ++ ".m3u8" ++ "?t=1") :: rest.
Proof.
  apply pattern_captures_url.
  - now right.
  - discriminate.
  - reflexivity.
  - reflexivity.
  - reflexivity.
Defined.
